(** * PluginLoader: the plugin activation orchestrator

    A shallow embedding of [src/server/managers/PluginLoader.ts] and the
    properties of its load-order algorithm: the claim-before-work cycle
    guard, the sequencing of the pipeline stages, the propagation of
    failures, the detached schema activation and the configuration
    snapshot taken by the constructor. *)

From Stdlib Require Import String List ZArith Lia.
From stdpp Require Import base gmap strings list fin_maps pretty.
Import ListNotations.

Open Scope string_scope.
Open Scope list_scope.

Set Warnings "-register-all".

(** ** Plain JavaScript data *)

(** A JSON-like value read through a reference: what a plugin sees when it
    is handed the loader's configuration object.  Numbers are the
    integer-valued ones. *)
Inductive Json :=
| JsonUndefined
| JsonNull
| JsonBool (b : bool)
| JsonNum (z : Z)
| JsonStr (s : string)
| JsonObj (fields : list (string * Json)).

(** [FrameworkConfig] is an interface of [../interfaces]; the loader reads
    its [pluginBasePath] and hands the whole object to the plugins. *)
Definition FrameworkConfig := Json.

Fixpoint assoc {A} (k : string) (l : list (string * A)) : option A :=
  match l with
  | [] => None
  | (k', v) :: r => if String.eqb k k' then Some v else assoc k r
  end.

(** [o.k] on a plain value: [undefined] when the property is missing. *)
Definition js_get (o : Json) (k : string) : Json :=
  match o with
  | JsonObj fs => match assoc k fs with Some v => v | None => JsonUndefined end
  | _ => JsonUndefined
  end.

(** The string a value turns into as an operand of [+] with a string. *)
Definition js_to_string (v : Json) : string :=
  match v with
  | JsonUndefined => "undefined"
  | JsonNull => "null"
  | JsonBool true => "true"
  | JsonBool false => "false"
  | JsonNum z => pretty z
  | JsonStr s => s
  | JsonObj _ => "[object Object]"
  end.

Definition pluginBasePath (config : FrameworkConfig) : string :=
  js_to_string (js_get config "pluginBasePath").

(** ** Plugins, manifests, errors *)

(** [IPlugin]: the identity a load is requested with. *)
Record IPlugin := { plugin_id : string }.

(** [Manifest]: the loader reads [manifest.id] and
    [manifest.server.dependencies]; the latter may be [undefined]. *)
Record ManifestServer := { dependencies : option (list IPlugin) }.
Record Manifest := { manifest_id : string; server : ManifestServer }.

(** The codes of [FrameworkErrors] the loader uses. *)
Inductive FrameworkErrors :=
| MANIFEST_NOT_FOUND
| PLUGIN_LOAD_FAILED
| ROUTE_REGISTRY_FAILED
| SCHEMA_LOADER_FAILED.

(** Whatever a collaborator threw, by its message. *)
Definition RootError := string.

(** What a rejected promise carries: a [FrameworkError] built from
    [{code, rootError}], or an engine [TypeError] nobody wrapped. *)
Inductive Thrown :=
| FrameworkError (code : FrameworkErrors) (rootError : RootError)
| TypeError (message : string).

Inductive PluginInstance := Instance (label : string).

(** ** The collaborators

    Modules are looked up by path, as [import(path)] does.  The store of
    manifest modules is finite, like the directory it stands for. *)
Record Env := {
  (** [import(path)] followed by [Manifest.fromJSON]: a manifest, or what
      either of them threw; no entry when there is no such module. *)
  manifests : gmap string (RootError + Manifest);
  (** [new module.Server(config, manifest)] for the module at a path. *)
  servers : gmap string (FrameworkConfig -> Manifest -> RootError + PluginInstance);
  (** [RouterRegistry.getRouter(manifest)]: [None] when it returns. *)
  getRouter : Manifest -> option RootError;
  (** [new module.Router().init(router, manifest)] for the module at a
      path: [None] when it returns. *)
  routers : gmap string (Manifest -> option RootError);
  (** The files [glob] hands to its callback for a pattern. *)
  glob : string -> list string;
  (** [import(path)], [SchemaLoader.getLoader(schema.type)] and
      [schemaLoader.create(manifest, schema)] for a schema file: [None]
      when all three succeed. *)
  schemaCreate : string -> Manifest -> option RootError
}.

(** ** State *)

Inductive Event :=
| EvClaim (pluginId : string)        (* [__pluginsLoaded.push] *)
| EvManifest (pluginId : string)     (* [getManifest] returned *)
| EvPrepare (manifestId : string)    (* [preparePlugin] returned *)
| EvInstantiate (manifestId : string)(* [PluginManager.instances] assigned *)
| EvRoutes (manifestId : string).    (* [routerInstance.init] returned *)

(** A schema job started from the [glob] callback.  No promise of the
    loader waits for it: its rejection, if any, is unhandled.  The jobs
    are kept in the order they are started; when they run, relative to
    the stages that follow, is up to the event loop and is not part of
    the state. *)
Record SchemaJob := {
  job_plugin : string;
  job_path : string;
  job_rejection : option Thrown
}.

Record State := {
  _pluginsLoaded : list string;                (* [this.__pluginsLoaded] *)
  instances : gmap string PluginInstance;     (* [PluginManager.instances] *)
  detached : list SchemaJob;                  (* jobs nobody awaits *)
  log : list Event                            (* effects, oldest first *)
}.

Definition initialState : State :=
  {| _pluginsLoaded := []; instances := ∅; detached := []; log := [] |}.

Definition push (pluginId : string) (s : State) : State :=
  {| _pluginsLoaded := _pluginsLoaded s ++ [pluginId];
     instances := instances s;
     detached := detached s;
     log := log s ++ [EvClaim pluginId] |}.

Definition emit (e : Event) (s : State) : State :=
  {| _pluginsLoaded := _pluginsLoaded s;
     instances := instances s;
     detached := detached s;
     log := log s ++ [e] |}.

Definition setInstance (k : string) (i : PluginInstance) (s : State) : State :=
  {| _pluginsLoaded := _pluginsLoaded s;
     instances := <[k := i]> (instances s);
     detached := detached s;
     log := log s |}.

Definition detach (js : list SchemaJob) (s : State) : State :=
  {| _pluginsLoaded := _pluginsLoaded s;
     instances := instances s;
     detached := detached s ++ js;
     log := log s |}.

(** ** Async functions

    An [async] function, run to the settlement of its promise: it returns,
    throws, or (in the fuel-indexed loader only) runs out of fuel. *)
Inductive Completion (A : Type) :=
| Return (a : A)
| Throw (e : Thrown)
| Diverge.
Arguments Return {A} a.
Arguments Throw {A} e.
Arguments Diverge {A}.

Definition Async (A : Type) := State -> Completion A * State.

Definition ret {A} (a : A) : Async A := fun s => (Return a, s).
Definition throw {A} (e : Thrown) : Async A := fun s => (Throw e, s).
Definition diverge {A} : Async A := fun s => (Diverge, s).
Definition effect (f : State -> State) : Async unit := fun s => (Return tt, f s).

(** [await]: continue with the value, or reject with what was thrown. *)
Definition await {A B} (m : Async A) (k : A -> Async B) : Async B :=
  fun s =>
    match m s with
    | (Return a, s') => k a s'
    | (Throw e, s') => (Throw e, s')
    | (Diverge, s') => (Diverge, s')
    end.

Notation "'let_await' x ':=' m 'in' k" := (await m (fun x => k))
  (at level 10, x name, m at level 99, k at level 200,
   format "'let_await'  x  :=  m  'in'  '//' k").
Notation "'do_await' m 'in' k" := (await m (fun _ => k))
  (at level 10, m at level 99, k at level 200,
   format "'do_await'  m  'in'  '//' k").

(** [Array.prototype.indexOf] on strings: the first index, or [-1]. *)
Fixpoint indexOf (l : list string) (x : string) : Z :=
  match l with
  | [] => -1
  | y :: r =>
      if String.eqb y x then 0
      else let i := indexOf r x in if (i =? -1)%Z then -1 else (i + 1)%Z
  end.

(** [typeof] of the dependencies and strict inequality, on the two kinds
    of values the guard of step 3 compares. *)
Inductive JsPrim := PUndefined | PString (s : string).

Definition typeof_dependencies (d : option (list IPlugin)) : string :=
  match d with
  | None => "undefined"
  | Some _ => "object"
  end.

Definition strict_neq (a b : JsPrim) : bool :=
  match a, b with
  | PUndefined, PUndefined => false
  | PString x, PString y => negb (String.eqb x y)
  | _, _ => true
  end.

(** ** The loader *)
Section PluginLoader.
Context (env : Env) (config : FrameworkConfig).

Definition manifestPath (pluginId : string) : string :=
  (pluginBasePath config +:+ pluginId) +:+ "/manifest".
Definition serverPath (manifestId : string) : string :=
  (pluginBasePath config +:+ manifestId) +:+ "/server".
Definition routesPath (manifestId : string) : string :=
  (pluginBasePath config +:+ manifestId) +:+ "/routes".
Definition schemaPattern (manifestId : string) : string :=
  (pluginBasePath config +:+ manifestId) +:+ "/db/**/schema*.json".

Definition moduleNotFound (path : string) : RootError :=
  "Cannot find module '" +:+ path +:+ "'".

Definition getManifest (plugin : IPlugin) : Async Manifest :=
  let pluginId := plugin_id plugin in
  match manifests env !! manifestPath pluginId with
  | Some (inr m) => do_await effect (emit (EvManifest pluginId)) in ret m
  | Some (inl err) => throw (FrameworkError MANIFEST_NOT_FOUND err)
  | None =>
      throw (FrameworkError MANIFEST_NOT_FOUND
               (moduleNotFound (manifestPath pluginId)))
  end.

(** The callback of [glob] starts one job per file and returns; the
    promise of [loadDBSchema] is settled without them. *)
Definition schemaJob (manifest : Manifest) (path : string) : SchemaJob :=
  {| job_plugin := manifest_id manifest;
     job_path := path;
     job_rejection :=
       match schemaCreate env path manifest with
       | None => None
       | Some error => Some (FrameworkError SCHEMA_LOADER_FAILED error)
       end |}.

Definition loadDBSchema (manifest : Manifest) : Async unit :=
  effect (detach (map (schemaJob manifest)
                    (glob env (schemaPattern (manifest_id manifest))))).

Definition preparePlugin (manifest : Manifest) : Async unit :=
  do_await loadDBSchema manifest in
  effect (emit (EvPrepare (manifest_id manifest))).

Definition instantiatePlugin (manifest : Manifest) : Async unit :=
  match servers env !! serverPath (manifest_id manifest) with
  | None =>
      throw (FrameworkError PLUGIN_LOAD_FAILED
               (moduleNotFound (serverPath (manifest_id manifest))))
  | Some pluginClass =>
      match pluginClass config manifest with
      | inl err => throw (FrameworkError PLUGIN_LOAD_FAILED err)
      | inr pluginInstance =>
          do_await effect (setInstance (manifest_id manifest) pluginInstance) in
          effect (emit (EvInstantiate (manifest_id manifest)))
      end
  end.

Definition registerRoutes (manifest : Manifest) : Async unit :=
  match getRouter env manifest with
  | Some err => throw (FrameworkError ROUTE_REGISTRY_FAILED err)
  | None =>
      match routers env !! routesPath (manifest_id manifest) with
      | None =>
          throw (FrameworkError ROUTE_REGISTRY_FAILED
                   (moduleNotFound (routesPath (manifest_id manifest))))
      | Some init =>
          match init manifest with
          | Some err => throw (FrameworkError ROUTE_REGISTRY_FAILED err)
          | None => effect (emit (EvRoutes (manifest_id manifest)))
          end
      end
  end.

(** The [for ... of] loop of [loadDependencies], over the array. *)
Fixpoint loadDependencies_loop (loadPlugin : IPlugin -> Async unit)
    (deps : list IPlugin) : Async unit :=
  match deps with
  | [] => ret tt
  | dependency :: rest =>
      fun s =>
        if (indexOf (_pluginsLoaded s) (plugin_id dependency) =? -1)%Z
        then (do_await loadPlugin dependency in
              loadDependencies_loop loadPlugin rest) s
        else loadDependencies_loop loadPlugin rest s
  end.

(** Iterating [undefined] throws before the first round. *)
Definition loadDependencies (loadPlugin : IPlugin -> Async unit)
    (manifest : Manifest) : Async unit :=
  match dependencies (server manifest) with
  | None => throw (TypeError "manifest.server.dependencies is not iterable")
  | Some deps => loadDependencies_loop loadPlugin deps
  end.

Definition dependenciesGuard (manifest : Manifest) : bool :=
  strict_neq (PString (typeof_dependencies (dependencies (server manifest))))
             PUndefined.

(** The stages of [loadPlugin] after the manifest is there; the deep
    copy [pluginManifest] has the fields of [manifest]. *)
Definition ownStages (pluginManifest : Manifest) : Async unit :=
  do_await preparePlugin pluginManifest in      (* Step 5 *)
  do_await instantiatePlugin pluginManifest in  (* Step 6 *)
  registerRoutes pluginManifest.                (* Step 7 *)

(** The body of [loadPlugin]; [loadPlugin'] stands for the method itself
    where [loadDependencies] calls it back. *)
Definition loadPlugin_body (loadPlugin' : IPlugin -> Async unit)
    (plugin : IPlugin) : Async unit :=
  do_await effect (push (plugin_id plugin)) in            (* Step 1 *)
  let_await manifest := getManifest plugin in             (* Step 2 *)
  let pluginManifest := manifest in
  do_await (if dependenciesGuard manifest                 (* Step 3 *)
            then loadDependencies loadPlugin' pluginManifest
            else ret tt) in
  ownStages pluginManifest.

Fixpoint loadPlugin_fuel (fuel : nat) (plugin : IPlugin) : Async unit :=
  match fuel with
  | 0 => diverge
  | S fuel' => loadPlugin_body (loadPlugin_fuel fuel') plugin
  end.

(** Every nested call claims a manifest module nobody claimed before,
    so the number of manifest modules bounds the nesting. *)
Definition loadPlugin (plugin : IPlugin) : Async unit :=
  loadPlugin_fuel (S (S (size (manifests env)))) plugin.

End PluginLoader.

(** ** The configuration object

    Objects live in a store and are passed by reference; a reference is
    the index of its object.  The constructor keeps [_.cloneDeep(config)],
    lodash's deep copy: here on plain acyclic data, where it rebuilds the
    value read through the reference out of new objects. *)
Inductive JsVal :=
| VUndefined
| VNull
| VBool (b : bool)
| VNum (z : Z)
| VStr (s : string)
| VRef (l : nat).

Abbreviation JsObject := (list (string * JsVal)).
Abbreviation Heap := (list JsObject).

(** The plain value behind [v]; following a reference costs one unit. *)
Fixpoint readDeep (fuel : nat) (h : Heap) (v : JsVal) : option Json :=
  match v with
  | VUndefined => Some JsonUndefined
  | VNull => Some JsonNull
  | VBool b => Some (JsonBool b)
  | VNum z => Some (JsonNum z)
  | VStr s => Some (JsonStr s)
  | VRef l =>
      match fuel with
      | 0 => None
      | S fuel' =>
          match h !! l with
          | None => None
          | Some o =>
              match mapM (fun '(k, w) =>
                            match readDeep fuel' h w with
                            | Some j => Some (k, j)
                            | None => None
                            end) o with
              | Some fs => Some (JsonObj fs)
              | None => None
              end
          end
      end
  end.

(** Build a plain value out of new objects, children first. *)
Fixpoint alloc (j : Json) (h : Heap) : Heap * JsVal :=
  match j with
  | JsonUndefined => (h, VUndefined)
  | JsonNull => (h, VNull)
  | JsonBool b => (h, VBool b)
  | JsonNum z => (h, VNum z)
  | JsonStr s => (h, VStr s)
  | JsonObj fs =>
      let '(h1, o) :=
        (fix fields (fs : list (string * Json)) (h : Heap) : Heap * JsObject :=
           match fs with
           | [] => (h, [])
           | (k, j) :: r =>
               let '(h1, v) := alloc j h in
               let '(h2, o) := fields r h1 in
               (h2, (k, v) :: o)
           end) fs h in
      (h1 ++ [o], VRef (length h1))
  end.

(** [_.cloneDeep(v)]: lodash is a library, not part of the repository;
    this is what its deep copy does on plain acyclic data. *)
Definition cloneDeep (h : Heap) (v : JsVal) : option (Heap * JsVal) :=
  match readDeep (S (length h)) h v with
  | Some j => Some (alloc j h)
  | None => None
  end.

(** The loader object; [_pluginsLoaded] is kept in [State]. *)
Record PluginLoader := { _config : JsVal }.

(** [new PluginLoader(config)]. *)
Definition construct (h : Heap) (config : JsVal) : option (Heap * PluginLoader) :=
  match cloneDeep h config with
  | Some (h', c) => Some (h', {| _config := c |})
  | None => None
  end.

(** [get config()]: what is behind [this._config] now. *)
Definition getConfig (h : Heap) (loader : PluginLoader) : option FrameworkConfig :=
  readDeep (S (length h)) h (_config loader).

(** [loader.loadPlugin(plugin)] in a store: neither the loader nor the
    collaborators of [Env] write to the store while it runs, so the
    configuration read through [this.config] is the same at every use. *)
Definition PluginLoader_loadPlugin (env : Env) (h : Heap) (loader : PluginLoader)
    (plugin : IPlugin) (s : State) : option (Completion unit * State) :=
  match getConfig h loader with
  | Some config => Some (loadPlugin env config plugin s)
  | None => None
  end.

(** What the caller may do to the store afterwards. *)
Inductive Mutation :=
| SetField (l : nat) (k : string) (v : JsVal)   (* [o.k = v] *)
| NewObject (o : JsObject).                     (* [{...}] *)

Fixpoint setField (k : string) (v : JsVal) (o : JsObject) : JsObject :=
  match o with
  | [] => [(k, v)]
  | (k', v') :: r =>
      if String.eqb k k' then (k, v) :: r else (k', v') :: setField k v r
  end.

Definition mutate (h : Heap) (m : Mutation) : Heap :=
  match m with
  | SetField l k v =>
      match h !! l with
      | Some o => <[l := setField k v o]> h
      | None => h
      end
  | NewObject o => h ++ [o]
  end.

Definition mutateAll (ms : list Mutation) (h : Heap) : Heap :=
  fold_left mutate ms h.

(** The caller writes to its own objects: those that were there before the
    loader was constructed (below [lo]) and those made since (from [hi]). *)
Definition ownWrite (lo hi : nat) (m : Mutation) : Prop :=
  match m with
  | SetField l _ _ => l < lo \/ hi <= l
  | NewObject _ => True
  end.

(** ** Concrete plugin directories *)

Definition plugin (pluginId : string) : IPlugin := {| plugin_id := pluginId |}.

Definition mkManifest (pluginId : string) (deps : list string) : Manifest :=
  {| manifest_id := pluginId;
     server := {| dependencies := Some (map plugin deps) |} |}.

Definition demoConfig : FrameworkConfig :=
  JsonObj [("pluginBasePath", JsonStr "/plugins/"); ("env", JsonStr "test")].

Definition okServer : FrameworkConfig -> Manifest -> RootError + PluginInstance :=
  fun _ m => inr (Instance (manifest_id m)).

Definition okRouter : Manifest -> option RootError := fun _ => None.

(** A directory with a manifest, a server and a router per plugin of the
    graph, all of them working, and no schema file. *)
Definition directory (graph : list (string * list string)) : Env :=
  {| manifests :=
       list_to_map (map (fun '(i, ds) =>
                           (manifestPath demoConfig i, inr (mkManifest i ds)))
                      graph);
     servers :=
       list_to_map (map (fun '(i, _) => (serverPath demoConfig i, okServer))
                      graph);
     getRouter := fun _ => None;
     routers :=
       list_to_map (map (fun '(i, _) => (routesPath demoConfig i, okRouter))
                      graph);
     glob := fun _ => [];
     schemaCreate := fun _ _ => None |}.

(** [loader.loadPlugin({id: pluginId})] with [demoConfig]. *)
Definition run (env : Env) (pluginId : string) (s : State) :=
  loadPlugin env demoConfig (plugin pluginId) s.

(** The graphs of the scenarios. *)
Definition cycleAB := directory [("A", ["B"]); ("B", ["A"])].
Definition chainABC := directory [("A", []); ("B", ["A"]); ("C", ["B"])].
Definition diamondABCD :=
  directory [("A", []); ("B", ["A"]); ("C", ["A"]); ("D", ["B"; "C"])].

(** A server module whose constructor throws. *)
Definition failingServer : FrameworkConfig -> Manifest -> RootError + PluginInstance :=
  fun _ _ => inl "constructor failed".

(** A directory with one module, or its schema files, replaced. *)
Definition withServer (path : string)
    (ctor : FrameworkConfig -> Manifest -> RootError + PluginInstance)
    (env : Env) : Env :=
  {| manifests := manifests env;
     servers := <[path := ctor]> (servers env);
     getRouter := getRouter env;
     routers := routers env;
     glob := glob env;
     schemaCreate := schemaCreate env |}.

Definition withManifest (path : string) (m : RootError + Manifest)
    (env : Env) : Env :=
  {| manifests := <[path := m]> (manifests env);
     servers := servers env;
     getRouter := getRouter env;
     routers := routers env;
     glob := glob env;
     schemaCreate := schemaCreate env |}.

Definition withSchemas (files : string -> list string)
    (create : string -> Manifest -> option RootError) (env : Env) : Env :=
  {| manifests := manifests env;
     servers := servers env;
     getRouter := getRouter env;
     routers := routers env;
     glob := files;
     schemaCreate := create |}.


(** A single plugin without dependencies. *)
Definition singleA : Env := directory [("A", [])].

(** The only schema file of [X]. *)
Definition schemaFileX : string := "/plugins/X/db/v1/schema_users.json".

(** The plugin [X] with one schema file whose loader fails to create. *)
Definition schemaFailX : Env :=
  withSchemas
    (fun pattern =>
       if String.eqb pattern (schemaPattern demoConfig "X")
       then [schemaFileX] else [])
    (fun _ _ => Some "create failed")
    (directory [("X", [])]).

(** A manifest whose [server] section declares no [dependencies], and a
    directory with such a plugin. *)
Definition manifestWithoutDependencies (pluginId : string) : Manifest :=
  {| manifest_id := pluginId; server := {| dependencies := None |} |}.

Definition undeclared : Env :=
  withManifest (manifestPath demoConfig "U")
    (inr (manifestWithoutDependencies "U")) (directory []).

(** A configuration with a nested object, as the caller holds it. *)
Definition callerHeap : Heap :=
  [ [("pluginBasePath", VStr "/plugins/"); ("db", VRef 1)];
    [("host", VStr "localhost"); ("port", VNum 9042)] ].

Definition callerConfig : JsVal := VRef 0.

(** The store after [new PluginLoader(callerConfig)]. *)
Definition loaderHeap : Heap :=
  callerHeap ++
  [ [("host", VStr "localhost"); ("port", VNum 9042)];
    [("pluginBasePath", VStr "/plugins/"); ("db", VRef 2)] ].

(** The caller redirects the base path, edits the nested object and
    hangs a new object under its configuration. *)
Definition callerWrites : list Mutation :=
  [ SetField 0 "pluginBasePath" (VStr "/elsewhere/");
    SetField 1 "host" (VStr "example.org");
    NewObject [("debug", VBool true)];
    SetField 0 "extra" (VRef 4);
    SetField 4 "debug" (VBool false) ].

(** The manifest of [dep] cannot be parsed; [P] depends on [dep]. *)
Definition brokenManifest (dep : string) : Env :=
  withManifest (manifestPath demoConfig dep) (inl "Unexpected token } in JSON")
    (directory [("P", [dep])]).

(** [P] depends on [D0], which has one schema file, then on [D1], which
    has no manifest module. *)
Definition schemaFileD0 : string := "/plugins/D0/db/schema_items.json".

Definition missingAfterSchema : Env :=
  withSchemas
    (fun pattern =>
       if String.eqb pattern (schemaPattern demoConfig "D0")
       then [schemaFileD0] else [])
    (fun _ _ => None)
    (directory [("P", ["D0"; "D1"]); ("D0", [])]).

(** [P] has one schema file and a server whose constructor throws. *)
Definition schemaFileP : string := "/plugins/P/db/schema_items.json".

Definition constructorFailsAfterSchema : Env :=
  withServer (serverPath demoConfig "P") failingServer
    (withSchemas
       (fun pattern =>
          if String.eqb pattern (schemaPattern demoConfig "P")
          then [schemaFileP] else [])
       (fun _ _ => None)
       (directory [("P", [])])).



(** ** Notions the properties are stated with *)

(** The ids claimed in a stretch of the log, in order. *)
Definition claimsOf (t : list Event) : list string :=
  flat_map (fun e => match e with EvClaim x => [x] | _ => [] end) t.

(** [grows s s' t]: [s'] is [s] with the events [t] logged and their
    claims pushed; nothing is ever taken away. *)
Definition grows (s s' : State) (t : list Event) : Prop :=
  log s' = log s ++ t /\ _pluginsLoaded s' = _pluginsLoaded s ++ claimsOf t.

(** [fresh_grows s s' t]: moreover, every claim of [t] is for an id that
    was in the array neither before nor earlier in [t]. *)
Definition fresh_grows (s s' : State) (t : list Event) : Prop :=
  grows s s' t /\ NoDup (claimsOf t) /\
  forall x, x ∈ claimsOf t -> x ∉ _pluginsLoaded s.

(** A computation is [quiet] when it settles without claiming anything. *)
Definition quiet {A} (m : Async A) : Prop :=
  forall s, fst (m s) <> Diverge /\
            exists t, grows s (snd (m s)) t /\ claimsOf t = [].

(** What [loadDependencies] may assume of the method it calls back. *)
Definition fresh_callee (rec : IPlugin -> Async unit) : Prop :=
  forall d s, plugin_id d ∉ _pluginsLoaded s ->
              exists t, fresh_grows s (snd (rec d s)) t.

(** The number of manifest modules of the directory that belong to no id
    of the array: the measure that bounds the nesting of calls. *)
Definition unclaimed (env : Env) (config : FrameworkConfig) (s : State) : nat :=
  size (dom (manifests env) ∖
        list_to_set (manifestPath config <$> _pluginsLoaded s) : gset string).


(** The inner loops of [alloc] and [readDeep], by name. *)
Fixpoint alloc_fields (fs : list (string * Json)) (h : Heap) : Heap * JsObject :=
  match fs with
  | [] => (h, [])
  | (k, j) :: r =>
      let '(h1, v) := alloc j h in
      let '(h2, o) := alloc_fields r h1 in
      (h2, (k, v) :: o)
  end.

Definition readField (fuel : nat) (h : Heap) (kw : string * JsVal) :
    option (string * Json) :=
  let '(k, w) := kw in
  match readDeep fuel h w with
  | Some j => Some (k, j)
  | None => None
  end.

(** The number of objects a plain value is made of. *)
Fixpoint nodes (j : Json) : nat :=
  match j with
  | JsonObj fs => S (foldr Nat.add 0 (map (fun kj => nodes (snd kj)) fs))
  | _ => 0
  end.

Definition nodes_fields (fs : list (string * Json)) : nat :=
  foldr Nat.add 0 (map (fun kj => nodes (snd kj)) fs).

(** Two stores with the same objects at the references from [lo] up to
    [hi]. *)
Definition agree (lo hi : nat) (h h' : Heap) : Prop :=
  forall l, lo <= l < hi -> h !! l = h' !! l.

(** What [alloc] promises of one value, and of a list of fields. *)
Definition alloc_ok (j : Json) : Prop :=
  forall h h' v, alloc j h = (h', v) ->
    (exists news, h' = h ++ news /\ length news = nodes j) /\
    forall H fuel, agree (length h) (length h') h' H -> nodes j <= fuel ->
                   readDeep fuel H v = Some j.

(** What the [try] block of [instantiatePlugin] comes to. *)
Definition constructed (env : Env) (config : FrameworkConfig) (m : Manifest) :
    RootError + PluginInstance :=
  match servers env !! serverPath config (manifest_id m) with
  | None => inl (moduleNotFound (serverPath config (manifest_id m)))
  | Some pluginClass => pluginClass config m
  end.

(** What the [try] block of [registerRoutes] comes to. *)
Definition routed (env : Env) (config : FrameworkConfig) (m : Manifest) :
    option RootError :=
  match getRouter env m with
  | Some err => Some err
  | None =>
      match routers env !! routesPath config (manifest_id m) with
      | None => Some (moduleNotFound (routesPath config (manifest_id m)))
      | Some init => init m
      end
  end.

(** The plugin directory of [m] is in order: the manifest is [m], the
    server constructs [i], the router mounts. *)
Definition healthy (env : Env) (config : FrameworkConfig) (m : Manifest)
    (i : PluginInstance) : Prop :=
  manifests env !! manifestPath config (manifest_id m) = Some (inr m) /\
  constructed env config m = inr i /\
  routed env config m = None.

(** The jobs [loadDBSchema] leaves behind for [m]. *)
Definition schemaJobs (env : Env) (config : FrameworkConfig) (m : Manifest) :
    list SchemaJob :=
  map (schemaJob env m) (glob env (schemaPattern config (manifest_id m))).

(** The state after step 5, after steps 5 and 6, and after steps 5 to 7
    of a plugin. *)
Definition prepared (env : Env) (config : FrameworkConfig) (m : Manifest)
    (s : State) : State :=
  emit (EvPrepare (manifest_id m)) (detach (schemaJobs env config m) s).

Definition instantiated (env : Env) (config : FrameworkConfig) (m : Manifest)
    (i : PluginInstance) (s : State) : State :=
  emit (EvInstantiate (manifest_id m))
    (setInstance (manifest_id m) i (prepared env config m s)).

Definition finished (env : Env) (config : FrameworkConfig) (m : Manifest)
    (i : PluginInstance) (s : State) : State :=
  emit (EvRoutes (manifest_id m)) (instantiated env config m i s).

(** The ids instantiated in a stretch of the log, in order. *)
Definition instantiationsOf (t : list Event) : list string :=
  flat_map (fun e => match e with EvInstantiate x => [x] | _ => [] end) t.

Definition Event_eq_dec (x y : Event) : {x = y} + {x <> y}.
Proof. decide equality; apply string_dec. Defined.

(** How many times an event occurs in a stretch of the log. *)
Definition occurrences (e : Event) (t : list Event) : nat :=
  count_occ Event_eq_dec t e.

(** What the lookup of a manifest threw. *)
Definition lookupError (env : Env) (config : FrameworkConfig)
    (pluginId : string) : RootError :=
  match manifests env !! manifestPath config pluginId with
  | Some (inl err) => err
  | _ => moduleNotFound (manifestPath config pluginId)
  end.

(** Once [d] is claimed, the run ends there with its lookup error. *)
Definition fatal (env : Env) (config : FrameworkConfig) (d : string)
    (run : State -> Completion unit * State) : Prop :=
  forall s t,
    log (snd (run s)) = log s ++ t -> EvClaim d ∈ t ->
    fst (run s) =
      Throw (FrameworkError MANIFEST_NOT_FOUND (lookupError env config d)) /\
    exists t0, t = t0 ++ [EvClaim d].



(** Two states that differ at most in the jobs nobody awaits. *)
Definition sameButDetached (s s' : State) : Prop :=
  _pluginsLoaded s = _pluginsLoaded s' /\
  instances s = instances s' /\
  log s = log s'.

(** Two computations that settle alike from such states. *)
Definition alike {A} (m m' : Async A) : Prop :=
  forall s s', sameButDetached s s' ->
    fst (m s) = fst (m' s') /\ sameButDetached (snd (m s)) (snd (m' s')).

(** ** The runs of [loadPlugin], as a relation

    [Load plugin s c s' t]: called in state [s], [loadPlugin(plugin)]
    settles with [c] in state [s'], having logged [t].  One rule per way
    through the method: the manifest cannot be read; it declares no
    dependencies; a dependency fails; the constructor fails; the routes
    fail; everything is done.  [LoadDeps] is the loop of
    [loadDependencies]. *)
Definition notIterable : Thrown :=
  TypeError "manifest.server.dependencies is not iterable".

Section Runs.
Context (env : Env) (config : FrameworkConfig).

Inductive Load : IPlugin -> State -> Completion unit -> State -> list Event -> Prop :=
| Load_unreadable plugin s :
    (forall m, manifests env !! manifestPath config (plugin_id plugin)
               <> Some (inr m)) ->
    Load plugin s
      (Throw (FrameworkError MANIFEST_NOT_FOUND
                (lookupError env config (plugin_id plugin))))
      (push (plugin_id plugin) s)
      [EvClaim (plugin_id plugin)]
| Load_notIterable plugin s m :
    manifests env !! manifestPath config (plugin_id plugin) = Some (inr m) ->
    dependencies (server m) = None ->
    Load plugin s (Throw notIterable)
      (emit (EvManifest (plugin_id plugin)) (push (plugin_id plugin) s))
      [EvClaim (plugin_id plugin); EvManifest (plugin_id plugin)]
| Load_dependency plugin s m deps e s2 t :
    manifests env !! manifestPath config (plugin_id plugin) = Some (inr m) ->
    dependencies (server m) = Some deps ->
    LoadDeps deps
      (emit (EvManifest (plugin_id plugin)) (push (plugin_id plugin) s))
      (Throw e) s2 t ->
    Load plugin s (Throw e) s2
      (EvClaim (plugin_id plugin) :: EvManifest (plugin_id plugin) :: t)
| Load_constructor plugin s m deps s2 t err :
    manifests env !! manifestPath config (plugin_id plugin) = Some (inr m) ->
    dependencies (server m) = Some deps ->
    LoadDeps deps
      (emit (EvManifest (plugin_id plugin)) (push (plugin_id plugin) s))
      (Return tt) s2 t ->
    constructed env config m = inl err ->
    Load plugin s (Throw (FrameworkError PLUGIN_LOAD_FAILED err))
      (prepared env config m s2)
      (EvClaim (plugin_id plugin) :: EvManifest (plugin_id plugin) :: t ++
       [EvPrepare (manifest_id m)])
| Load_routes plugin s m deps s2 t i err :
    manifests env !! manifestPath config (plugin_id plugin) = Some (inr m) ->
    dependencies (server m) = Some deps ->
    LoadDeps deps
      (emit (EvManifest (plugin_id plugin)) (push (plugin_id plugin) s))
      (Return tt) s2 t ->
    constructed env config m = inr i ->
    routed env config m = Some err ->
    Load plugin s (Throw (FrameworkError ROUTE_REGISTRY_FAILED err))
      (instantiated env config m i s2)
      (EvClaim (plugin_id plugin) :: EvManifest (plugin_id plugin) :: t ++
       [EvPrepare (manifest_id m); EvInstantiate (manifest_id m)])
| Load_done plugin s m deps s2 t i :
    manifests env !! manifestPath config (plugin_id plugin) = Some (inr m) ->
    dependencies (server m) = Some deps ->
    LoadDeps deps
      (emit (EvManifest (plugin_id plugin)) (push (plugin_id plugin) s))
      (Return tt) s2 t ->
    constructed env config m = inr i ->
    routed env config m = None ->
    Load plugin s (Return tt) (finished env config m i s2)
      (EvClaim (plugin_id plugin) :: EvManifest (plugin_id plugin) :: t ++
       [EvPrepare (manifest_id m); EvInstantiate (manifest_id m);
        EvRoutes (manifest_id m)])
with LoadDeps : list IPlugin -> State -> Completion unit -> State -> list Event -> Prop :=
| Deps_nil s : LoadDeps [] s (Return tt) s []
| Deps_skip d rest s c s' t :
    plugin_id d ∈ _pluginsLoaded s ->
    LoadDeps rest s c s' t ->
    LoadDeps (d :: rest) s c s' t
| Deps_throw d rest s e s1 t :
    plugin_id d ∉ _pluginsLoaded s ->
    Load d s (Throw e) s1 t ->
    LoadDeps (d :: rest) s (Throw e) s1 t
| Deps_next d rest s s1 t1 c s2 t2 :
    plugin_id d ∉ _pluginsLoaded s ->
    Load d s (Return tt) s1 t1 ->
    LoadDeps rest s1 c s2 t2 ->
    LoadDeps (d :: rest) s c s2 (t1 ++ t2).

Scheme Load_minimal := Minimality for Load Sort Prop
  with LoadDeps_minimal := Minimality for LoadDeps Sort Prop.
Combined Scheme Load_mutual from Load_minimal, LoadDeps_minimal.

End Runs.

(** ** Notions of the further properties *)

(** [stopsAt env config x e s' t]: [e] is what a stage of plugin [x]
    throws (the lookup of its manifest, the iteration of its
    dependencies, its constructor, its routes), [t] ends with the last
    things the load of [x] logged before that, and [s'] holds what the
    stages of [x] before the failing one left: its schema jobs, the last
    ones started, when the constructor or the router throws, and its
    instance when the router throws. *)
Definition stopsAt (env : Env) (config : FrameworkConfig) (x : string)
    (e : Thrown) (s' : State) (t : list Event) : Prop :=
  match manifests env !! manifestPath config x with
  | Some (inr m) =>
      (dependencies (server m) = None /\ e = notIterable /\
       exists t0, t = t0 ++ [EvClaim x; EvManifest x]) \/
      (exists err,
         constructed env config m = inl err /\
         e = FrameworkError PLUGIN_LOAD_FAILED err /\
         (exists t0, t = t0 ++ [EvPrepare (manifest_id m)]) /\
         exists js0, detached s' = js0 ++ schemaJobs env config m) \/
      (exists i err,
         constructed env config m = inr i /\
         routed env config m = Some err /\
         e = FrameworkError ROUTE_REGISTRY_FAILED err /\
         (exists t0, t = t0 ++ [EvPrepare (manifest_id m);
                                EvInstantiate (manifest_id m)]) /\
         (exists js0, detached s' = js0 ++ schemaJobs env config m) /\
         instances s' !! manifest_id m = Some i)
  | _ =>
      e = FrameworkError MANIFEST_NOT_FOUND (lookupError env config x) /\
      exists t0, t = t0 ++ [EvClaim x]
  end.

(** A manifest module in order: the manifest is read, it declares
    dependencies that all have a readable manifest, its server constructs
    and its router mounts. *)
Definition readable (env : Env) (config : FrameworkConfig) (pluginId : string) : bool :=
  match manifests env !! manifestPath config pluginId with
  | Some (inr _) => true
  | _ => false
  end.

Definition moduleInOrder (env : Env) (config : FrameworkConfig)
    (r : RootError + Manifest) : bool :=
  match r with
  | inl _ => false
  | inr m =>
      match dependencies (server m) with
      | None => false
      | Some deps => forallb (fun d => readable env config (plugin_id d)) deps
      end
      && match constructed env config m with inr _ => true | inl _ => false end
      && match routed env config m with None => true | Some _ => false end
  end.

(** A directory in which every manifest module is in order. *)
Definition inOrder (env : Env) (config : FrameworkConfig) : bool :=
  forallb (fun kv => moduleInOrder env config (snd kv))
    (map_to_list (manifests env)).

(** [framed s s' t]: from [s] to [s'], [PluginManager.instances] changed
    at the keys instantiated in [t] only, and holds an instance at each of
    them. *)
Definition framed (s s' : State) (t : list Event) : Prop :=
  forall k,
    (k ∉ instantiationsOf t -> instances s' !! k = instances s !! k) /\
    (k ∈ instantiationsOf t -> is_Some (instances s' !! k)).

(** [stagesInOrder t]: at every moment of [t], no id has more route
    registrations than instantiations, more instantiations than schema
    stage calls, or more manifests read than claims. *)
Definition stagesInOrder (t : list Event) : Prop :=
  forall u v x, t = u ++ v ->
    occurrences (EvRoutes x) u <= occurrences (EvInstantiate x) u /\
    occurrences (EvInstantiate x) u <= occurrences (EvPrepare x) u /\
    occurrences (EvManifest x) u <= occurrences (EvClaim x) u.

(** [loadedThrough env config s' t x]: plugin [x] went through every stage
    in [t]: its manifest was read, its dependencies are all in the array
    of [s'], its server constructed, its routes were registered, and
    [PluginManager.instances] holds an instance under its manifest id. *)
Definition loadedThrough (env : Env) (config : FrameworkConfig) (s' : State)
    (t : list Event) (x : string) : Prop :=
  exists m deps i,
    manifests env !! manifestPath config x = Some (inr m) /\
    dependencies (server m) = Some deps /\
    (forall d, d ∈ deps -> plugin_id d ∈ _pluginsLoaded s') /\
    constructed env config m = inr i /\
    routed env config m = None /\
    EvRoutes (manifest_id m) ∈ t /\
    is_Some (instances s' !! manifest_id m).

(** What can be said of a schema job started during [t]. *)
Definition jobStartedIn (env : Env) (config : FrameworkConfig)
    (t : list Event) (j : SchemaJob) : Prop :=
  EvPrepare (job_plugin j) ∈ t /\
  job_path j ∈ glob env (schemaPattern config (job_plugin j)) /\
  (job_rejection j = None \/
   exists err, job_rejection j = Some (FrameworkError SCHEMA_LOADER_FAILED err)).

(** [jobsFrom env config s s' t]: from [s] to [s'], the jobs nobody awaits
    are those of [s] followed by jobs started in [t]. *)
Definition jobsFrom (env : Env) (config : FrameworkConfig) (s s' : State)
    (t : list Event) : Prop :=
  exists js, detached s' = detached s ++ js /\
             Forall (jobStartedIn env config t) js.

(** The jobs of plugin [x] among the jobs nobody awaits. *)
Definition jobsOf (x : string) (js : list SchemaJob) : list SchemaJob :=
  List.filter (fun j => String.eqb (job_plugin j) x) js.

(** Counting the events of a short log, case by case. *)
Ltac count_events :=
  unfold occurrences; cbn [count_occ];
  repeat match goal with
         | |- context [Event_eq_dec ?a ?b] => destruct (Event_eq_dec a b)
         end;
  try congruence; lia.

(** [get config()]: the getter hands out [this._config] itself, the
    reference the loader reads its configuration through. *)
Definition get_config (loader : PluginLoader) : JsVal := _config loader.

(** A plugin that names itself among its dependencies. *)
Definition selfDependent : Env := directory [("A", ["A"])].

(** [claimsReadable env config c t]: of the ids claimed in [t], all have a
    readable manifest, except at most the last one; none is excepted when
    the run returned. *)
Definition claimsReadable (env : Env) (config : FrameworkConfig)
    (c : Completion unit) (t : list Event) : Prop :=
  exists l rest,
    claimsOf t = l ++ rest /\
    Forall (fun x => readable env config x = true) l /\
    length rest <= 1 /\
    (c = Return tt -> rest = []).

(** [sameModulesAt env env' config x]: the two directories hold the same
    thing for plugin [x]: the same manifest module (or none), and, when it
    gives a manifest, a server, a router and schema files that do the
    same. *)
Definition sameModulesAt (env env' : Env) (config : FrameworkConfig)
    (x : string) : Prop :=
  manifests env !! manifestPath config x
    = manifests env' !! manifestPath config x /\
  forall m, manifests env !! manifestPath config x = Some (inr m) ->
    constructed env config m = constructed env' config m /\
    routed env config m = routed env' config m /\
    schemaJobs env config m = schemaJobs env' config m.

(** Membership in an array of known ids, by computation. *)
Ltac array_in := vm_compute; apply list_elem_of_In; simpl; tauto.
Ltac array_out :=
  vm_compute; let H := fresh in
  intros H; apply list_elem_of_In in H; simpl in H; intuition congruence.

(** * Properties *)

(** ** Arrays and strings *)

Lemma indexOf_lower (l : list string) (x : string) : (-1 <= indexOf l x)%Z.
Proof.
  induction l as [|y r IH]; simpl; [lia|].
  destruct (String.eqb y x); [lia|].
  destruct (indexOf r x =? -1)%Z eqn:E; lia.
Qed.

Lemma indexOf_absent (l : list string) (x : string) :
  indexOf l x = (-1)%Z <-> x ∉ l.
Proof.
  induction l as [|y r IH]; simpl.
  - split; [intros _; apply not_elem_of_nil | reflexivity].
  - destruct (String.eqb_spec y x) as [->|Hne].
    + split; [lia | intros H; exfalso; apply H; left].
    + pose proof (indexOf_lower r x) as Hlow.
      destruct (indexOf r x =? -1)%Z eqn:E.
      * apply Z.eqb_eq in E. split; [|reflexivity].
        intros _ Hin. apply elem_of_cons in Hin as [->|Hin]; [congruence|].
        by apply IH in E.
      * apply Z.eqb_neq in E. split; [lia|].
        intros Hnin. exfalso. apply E, IH. intros Hin. apply Hnin. by right.
Qed.

Lemma indexOf_test (l : list string) (x : string) :
  (indexOf l x =? -1)%Z = bool_decide (x ∉ l).
Proof.
  destruct (indexOf l x =? -1)%Z eqn:E; symmetry.
  - apply bool_decide_eq_true, indexOf_absent. by apply Z.eqb_eq.
  - apply bool_decide_eq_false. rewrite <- indexOf_absent. by apply Z.eqb_neq.
Qed.

Lemma append_cons (x : Ascii.ascii) (a b : string) :
  String x a +:+ b = String x (a +:+ b).
Proof. reflexivity. Qed.

Lemma append_assoc (a b c : string) : (a +:+ b) +:+ c = a +:+ (b +:+ c).
Proof.
  induction a as [|x a IH]; [reflexivity|].
  rewrite !append_cons. f_equal. exact IH.
Qed.

Lemma append_length (a b : string) :
  String.length (a +:+ b) = String.length a + String.length b.
Proof.
  induction a as [|x a IH]; [reflexivity|].
  rewrite append_cons. simpl. f_equal. exact IH.
Qed.

Lemma append_cancel_r (a b c : string) : a +:+ c = b +:+ c -> a = b.
Proof.
  revert b. induction a as [|x a IH]; intros [|y b] H.
  - reflexivity.
  - apply (f_equal String.length) in H.
    rewrite !append_length in H. simpl in H. lia.
  - apply (f_equal String.length) in H.
    rewrite !append_length in H. simpl in H. lia.
  - rewrite !append_cons in H. injection H as -> H. f_equal. by apply IH.
Qed.

(** ** What a run adds to the state *)

Lemma claimsOf_app (t u : list Event) :
  claimsOf (t ++ u) = claimsOf t ++ claimsOf u.
Proof. apply flat_map_app. Qed.

Lemma elem_claimsOf (x : string) (t : list Event) :
  EvClaim x ∈ t <-> x ∈ claimsOf t.
Proof.
  induction t as [|e t IH]; simpl.
  - split; intros H; inversion H.
  - rewrite elem_of_cons, elem_of_app, IH.
    destruct e; simpl; rewrite ?list_elem_of_singleton, ?elem_of_nil;
      (split; intros [H|H]; [|by right| |by right]);
      try discriminate H; try contradiction H.
    + left. by injection H.
    + left. by rewrite H.
Qed.

Lemma grows_refl s : grows s s [].
Proof. split; simpl; by rewrite app_nil_r. Qed.

Lemma grows_trans s1 s2 s3 t u :
  grows s1 s2 t -> grows s2 s3 u -> grows s1 s3 (t ++ u).
Proof.
  intros [Hl1 Hp1] [Hl2 Hp2]. split.
  - by rewrite Hl2, Hl1, app_assoc.
  - by rewrite Hp2, Hp1, claimsOf_app, app_assoc.
Qed.

Lemma fresh_grows_refl s : fresh_grows s s [].
Proof.
  split; [apply grows_refl|]. split; [constructor|].
  simpl. intros x Hx. by apply elem_of_nil in Hx.
Qed.

Lemma fresh_grows_trans s1 s2 s3 t u :
  fresh_grows s1 s2 t -> fresh_grows s2 s3 u -> fresh_grows s1 s3 (t ++ u).
Proof.
  intros (G1 & N1 & F1) (G2 & N2 & F2).
  split; [by eapply grows_trans|].
  destruct G1 as [_ Hp1]. rewrite claimsOf_app. split.
  - apply NoDup_app. split; [done|]. split; [|done].
    intros x Hx1 Hx2. apply (F2 x Hx2). rewrite Hp1.
    apply elem_of_app. by right.
  - intros x Hx. apply elem_of_app in Hx as [Hx|Hx]; [by apply F1|].
    intros Hin. apply (F2 x Hx). rewrite Hp1. apply elem_of_app. by left.
Qed.

Lemma fresh_grows_grows s s' t : fresh_grows s s' t -> grows s s' t.
Proof. by intros [? _]. Qed.

Lemma push_grows pluginId s : grows s (push pluginId s) [EvClaim pluginId].
Proof. by split. Qed.

Lemma push_fresh_grows pluginId s :
  pluginId ∉ _pluginsLoaded s ->
  fresh_grows s (push pluginId s) [EvClaim pluginId].
Proof.
  intros Hn. split; [apply push_grows|]. simpl. split.
  - apply NoDup_singleton.
  - intros x Hx. apply list_elem_of_singleton in Hx. by subst.
Qed.

(** ** The stages one by one *)

Lemma quiet_ret {A} (a : A) : quiet (ret a).
Proof. intros s. split; [done|]. exists []. split; [apply grows_refl | done]. Qed.

Lemma quiet_throw {A} (e : Thrown) : quiet (@throw A e).
Proof. intros s. split; [done|]. exists []. split; [apply grows_refl | done]. Qed.

Lemma quiet_await {A B} (m : Async A) (k : A -> Async B) :
  quiet m -> (forall a, quiet (k a)) -> quiet (await m k).
Proof.
  intros Hm Hk s. unfold await.
  destruct (Hm s) as (Hd & t & Hg & Ht).
  destruct (m s) as [[a| e |] s1] eqn:E; simpl in *; [| |done].
  - destruct (Hk a s1) as (Hd' & u & Hg' & Hu). split; [done|].
    exists (t ++ u). split; [by eapply grows_trans|].
    by rewrite claimsOf_app, Ht, Hu.
  - split; [done|]. by exists t.
Qed.

Lemma quiet_emit (e : Event) :
  claimsOf [e] = [] -> quiet (effect (emit e)).
Proof.
  intros He s. split; [done|]. exists [e]. split; [|done].
  split; [done|]. rewrite He. simpl. by rewrite app_nil_r.
Qed.

Lemma quiet_setInstance k i : quiet (effect (setInstance k i)).
Proof.
  intros s. split; [done|]. exists []. split; [|done].
  split; simpl; by rewrite app_nil_r.
Qed.

Lemma quiet_detach js : quiet (effect (detach js)).
Proof.
  intros s. split; [done|]. exists []. split; [|done].
  split; simpl; by rewrite app_nil_r.
Qed.

Section Stages.
Context (env : Env) (config : FrameworkConfig).

Lemma getManifest_quiet plugin : quiet (getManifest env config plugin).
Proof.
  unfold getManifest.
  destruct (manifests env !! _) as [[err|m]|]; try apply quiet_throw.
  apply quiet_await; [by apply quiet_emit | intros; apply quiet_ret].
Qed.

Lemma preparePlugin_quiet manifest : quiet (preparePlugin env config manifest).
Proof.
  unfold preparePlugin, loadDBSchema.
  apply quiet_await; [apply quiet_detach | intros; by apply quiet_emit].
Qed.

Lemma instantiatePlugin_quiet manifest :
  quiet (instantiatePlugin env config manifest).
Proof.
  unfold instantiatePlugin.
  destruct (servers env !! _) as [pluginClass|]; [|apply quiet_throw].
  destruct (pluginClass config manifest); [apply quiet_throw|].
  apply quiet_await; [apply quiet_setInstance | intros; by apply quiet_emit].
Qed.

Lemma registerRoutes_quiet manifest :
  quiet (registerRoutes env config manifest).
Proof.
  unfold registerRoutes.
  destruct (getRouter env manifest); [apply quiet_throw|].
  destruct (routers env !! _) as [init|]; [|apply quiet_throw].
  destruct (init manifest); [apply quiet_throw | by apply quiet_emit].
Qed.

Lemma ownStages_quiet manifest : quiet (ownStages env config manifest).
Proof.
  unfold ownStages.
  apply quiet_await; [apply preparePlugin_quiet | intros _].
  apply quiet_await; [apply instantiatePlugin_quiet | intros _].
  apply registerRoutes_quiet.
Qed.

(** The guard of step 3 lets every manifest through. *)
Lemma dependenciesGuard_true manifest : dependenciesGuard manifest = true.
Proof. unfold dependenciesGuard. by destruct (dependencies _). Qed.

(** ** Claims are fresh *)

Lemma quiet_fresh_grows {A} (m : Async A) s :
  quiet m -> exists t, fresh_grows s (snd (m s)) t.
Proof.
  intros Hq. destruct (Hq s) as (_ & t & Hg & Ht). exists t.
  split; [done|]. rewrite Ht. split; [constructor|].
  intros x Hx. by apply elem_of_nil in Hx.
Qed.

Lemma loop_fresh rec deps s :
  fresh_callee rec ->
  exists t, fresh_grows s (snd (loadDependencies_loop rec deps s)) t.
Proof.
  intros Hrec. revert s.
  induction deps as [|d rest IH]; intros s; simpl.
  - exists []. apply fresh_grows_refl.
  - rewrite indexOf_test. case_bool_decide as Hd; [|apply IH].
    unfold await. destruct (Hrec d s Hd) as [t Ht].
    destruct (rec d s) as [[[]| e |] s1]; simpl in *; try by exists t.
    destruct (IH s1) as [u Hu]. exists (t ++ u).
    by eapply fresh_grows_trans.
Qed.

Lemma loadDependencies_fresh rec manifest s :
  fresh_callee rec ->
  exists t, fresh_grows s (snd (loadDependencies rec manifest s)) t.
Proof.
  intros Hrec. unfold loadDependencies.
  destruct (dependencies _); [by apply loop_fresh|].
  exists []. apply fresh_grows_refl.
Qed.

(** The body, with [await] spelled out and the guard resolved. *)
Lemma loadPlugin_body_eq rec plugin s :
  loadPlugin_body env config rec plugin s =
  match getManifest env config plugin (push (plugin_id plugin) s) with
  | (Return m, s1) =>
      match loadDependencies rec m s1 with
      | (Return _, s2) => ownStages env config m s2
      | (Throw e, s2) => (Throw e, s2)
      | (Diverge, s2) => (Diverge, s2)
      end
  | (Throw e, s1) => (Throw e, s1)
  | (Diverge, s1) => (Diverge, s1)
  end.
Proof.
  unfold loadPlugin_body, await, effect.
  by destruct (getManifest env config plugin _) as [[m| e |] s1].
Qed.

(** After its own claim, the body only adds fresh claims. *)
Lemma body_fresh rec plugin s :
  fresh_callee rec ->
  exists t, fresh_grows (push (plugin_id plugin) s)
              (snd (loadPlugin_body env config rec plugin s)) t.
Proof.
  intros Hrec. rewrite loadPlugin_body_eq.
  set (s0 := push (plugin_id plugin) s).
  destruct (quiet_fresh_grows (getManifest env config plugin) s0
              (getManifest_quiet plugin)) as [t1 H1].
  destruct (getManifest env config plugin s0) as [[m| e |] s1];
    cbn [fst snd] in *; try by exists t1.
  destruct (loadDependencies_fresh rec m s1 Hrec) as [t2 H2].
  destruct (loadDependencies rec m s1) as [[[]| e |] s2]; cbn [fst snd] in *;
    try (exists (t1 ++ t2); by eapply fresh_grows_trans).
  destruct (quiet_fresh_grows (ownStages env config m) s2
              (ownStages_quiet m)) as [t3 H3].
  exists ((t1 ++ t2) ++ t3).
  eapply fresh_grows_trans; [|exact H3]. by eapply fresh_grows_trans.
Qed.

Lemma loadPlugin_fuel_fresh fuel : fresh_callee (loadPlugin_fuel env config fuel).
Proof.
  induction fuel as [|n IH]; intros d s Hd; simpl.
  - exists []. apply fresh_grows_refl.
  - destruct (body_fresh _ d s IH) as [t Ht].
    exists (EvClaim (plugin_id d) :: t).
    change (EvClaim (plugin_id d) :: t) with ([EvClaim (plugin_id d)] ++ t).
    eapply fresh_grows_trans; [by apply push_fresh_grows | exact Ht].
Qed.

End Stages.

(** ** Termination

    The manifest modules nobody has claimed yet: each nested call takes
    one of them, or fails at once for want of a manifest. *)
Section Termination.
Context (env : Env) (config : FrameworkConfig).

Lemma manifestPath_inj a b :
  manifestPath config a = manifestPath config b -> a = b.
Proof.
  unfold manifestPath. intros H. apply append_cancel_r in H.
  by apply (inj (String.append _)) in H.
Qed.

Lemma unclaimed_le s : unclaimed env config s <= size (manifests env).
Proof.
  unfold unclaimed. rewrite <- size_dom. apply subseteq_size.
  intros x Hx. apply elem_of_difference in Hx. tauto.
Qed.

Lemma unclaimed_grows s s' t : grows s s' t -> unclaimed env config s' <= unclaimed env config s.
Proof.
  intros [_ Hp]. unfold unclaimed. apply subseteq_size.
  rewrite Hp, fmap_app. intros x.
  rewrite !elem_of_difference, !elem_of_list_to_set, elem_of_app. tauto.
Qed.

Lemma unclaimed_push pluginId s :
  is_Some (manifests env !! manifestPath config pluginId) ->
  pluginId ∉ _pluginsLoaded s ->
  unclaimed env config (push pluginId s) < unclaimed env config s.
Proof.
  intros Hm Hn. unfold unclaimed. apply subset_size. simpl.
  rewrite fmap_app. simpl.
  assert (manifestPath config pluginId ∈ dom (manifests env)) as Hd
    by by apply elem_of_dom.
  assert (manifestPath config pluginId ∉
            (list_to_set (manifestPath config <$> _pluginsLoaded s) : gset string))
    as Hf.
  { rewrite elem_of_list_to_set, list_elem_of_fmap.
    intros (y & Hy & Hin). apply manifestPath_inj in Hy. by subst. }
  split.
  - intros x. rewrite !elem_of_difference, !elem_of_list_to_set, elem_of_app.
    tauto.
  - intros Hsub. specialize (Hsub (manifestPath config pluginId)).
    rewrite !elem_of_difference, !elem_of_list_to_set, elem_of_app in Hsub.
    rewrite elem_of_list_to_set in Hf.
    destruct Hsub as [_ Hsub]; [by split|]. apply Hsub. right.
    apply list_elem_of_singleton. reflexivity.
Qed.

Lemma getManifest_some plugin s m s1 :
  getManifest env config plugin s = (Return m, s1) ->
  manifests env !! manifestPath config (plugin_id plugin) = Some (inr m) /\
  s1 = emit (EvManifest (plugin_id plugin)) s.
Proof.
  unfold getManifest.
  destruct (manifests env !! _) as [[err|m']|]; cbv [throw]; try done.
  unfold await, effect, ret. by intros [= -> <-].
Qed.

Lemma unclaimed_emit e s : unclaimed env config (emit e s) = unclaimed env config s.
Proof. reflexivity. Qed.

(** Two callees that agree wherever the loop may call them give the
    same loop. *)
Lemma loop_ext k rec rec' deps s :
  fresh_callee rec ->
  (forall d s, plugin_id d ∉ _pluginsLoaded s -> unclaimed env config s < k ->
               rec d s = rec' d s) ->
  unclaimed env config s < k ->
  loadDependencies_loop rec deps s = loadDependencies_loop rec' deps s.
Proof.
  intros Hf Heq. revert s.
  induction deps as [|d rest IH]; intros s Hk; simpl; [done|].
  rewrite indexOf_test. case_bool_decide as Hd; [|by apply IH].
  unfold await. rewrite <- (Heq d s Hd Hk).
  destruct (Hf d s Hd) as [t Ht].
  destruct (rec d s) as [[[]| e |] s1]; cbn [fst snd] in *; try done.
  apply IH. apply fresh_grows_grows, unclaimed_grows in Ht. lia.
Qed.

Lemma body_ext k rec rec' plugin s :
  fresh_callee rec ->
  (forall d s, plugin_id d ∉ _pluginsLoaded s -> unclaimed env config s < k ->
               rec d s = rec' d s) ->
  (is_Some (manifests env !! manifestPath config (plugin_id plugin)) ->
   unclaimed env config (push (plugin_id plugin) s) < k) ->
  loadPlugin_body env config rec plugin s =
  loadPlugin_body env config rec' plugin s.
Proof.
  intros Hf Heq Hk. rewrite !loadPlugin_body_eq.
  destruct (getManifest env config plugin _) as [[m| e |] s1] eqn:E; try done.
  apply getManifest_some in E as [Hm ->].
  unfold loadDependencies. destruct (dependencies _) as [deps|]; [|done].
  rewrite (loop_ext k rec rec'); [done..|].
  rewrite unclaimed_emit. apply Hk. by rewrite Hm.
Qed.

(** One more unit of fuel changes nothing once there is enough. *)
Lemma loadPlugin_fuel_stable fuel d s :
  plugin_id d ∉ _pluginsLoaded s -> unclaimed env config s < fuel ->
  loadPlugin_fuel env config (S fuel) d s = loadPlugin_fuel env config fuel d s.
Proof.
  revert d s. induction fuel as [|n IH]; intros d s Hd Hk; [lia|].
  change (loadPlugin_body env config (loadPlugin_fuel env config (S n)) d s =
          loadPlugin_body env config (loadPlugin_fuel env config n) d s).
  apply (body_ext n).
  - apply loadPlugin_fuel_fresh.
  - intros d' s' Hd' Hk'. by apply IH.
  - intros Hm. pose proof (unclaimed_push _ s Hm Hd). lia.
Qed.

Lemma loop_total k rec deps s :
  fresh_callee rec ->
  (forall d s, plugin_id d ∉ _pluginsLoaded s -> unclaimed env config s < k ->
               fst (rec d s) <> Diverge) ->
  unclaimed env config s < k ->
  fst (loadDependencies_loop rec deps s) <> Diverge.
Proof.
  intros Hf Hrec. revert s.
  induction deps as [|d rest IH]; intros s Hk; simpl; [done|].
  rewrite indexOf_test. case_bool_decide as Hd; [|by apply IH].
  unfold await. pose proof (Hrec d s Hd Hk) as Hnd.
  destruct (Hf d s Hd) as [t Ht].
  destruct (rec d s) as [[[]| e |] s1]; cbn [fst snd] in *; try done.
  apply IH. apply fresh_grows_grows, unclaimed_grows in Ht. lia.
Qed.

Lemma body_total k rec plugin s :
  fresh_callee rec ->
  (forall d s, plugin_id d ∉ _pluginsLoaded s -> unclaimed env config s < k ->
               fst (rec d s) <> Diverge) ->
  (is_Some (manifests env !! manifestPath config (plugin_id plugin)) ->
   unclaimed env config (push (plugin_id plugin) s) < k) ->
  fst (loadPlugin_body env config rec plugin s) <> Diverge.
Proof.
  intros Hf Hrec Hk. rewrite loadPlugin_body_eq.
  pose proof (getManifest_quiet env config plugin
                (push (plugin_id plugin) s)) as [Hg _].
  destruct (getManifest env config plugin _) as [[m| e |] s1] eqn:E; try done.
  apply getManifest_some in E as [Hm ->].
  assert (fst (loadDependencies rec m
                 (emit (EvManifest (plugin_id plugin))
                    (push (plugin_id plugin) s))) <> Diverge) as Hl.
  { unfold loadDependencies. destruct (dependencies _) as [deps|]; [|done].
    apply (loop_total k); [done..|].
    rewrite unclaimed_emit. apply Hk. by rewrite Hm. }
  destruct (loadDependencies rec m _) as [[[]| e |] s2]; try done.
  apply ownStages_quiet.
Qed.

Lemma loadPlugin_fuel_total fuel d s :
  plugin_id d ∉ _pluginsLoaded s -> unclaimed env config s < fuel ->
  fst (loadPlugin_fuel env config fuel d s) <> Diverge.
Proof.
  revert d s. induction fuel as [|n IH]; intros d s Hd Hk; [lia|].
  apply (body_total n).
  - apply loadPlugin_fuel_fresh.
  - intros d' s' Hd' Hk'. by apply IH.
  - intros Hm. pose proof (unclaimed_push _ s Hm Hd). lia.
Qed.

(** [loadPlugin] settles, whatever the directory and the state. *)
Lemma loadPlugin_total plugin s :
  fst (loadPlugin env config plugin s) <> Diverge.
Proof.
  change (loadPlugin env config plugin s) with
    (loadPlugin_body env config
       (loadPlugin_fuel env config (S (size (manifests env)))) plugin s).
  apply (body_total (S (size (manifests env)))).
  - apply loadPlugin_fuel_fresh.
  - intros d s' Hd Hk. by apply loadPlugin_fuel_total.
  - intros _. pose proof (unclaimed_le (push (plugin_id plugin) s)). lia.
Qed.

(** [loadPlugin] is a fixed point of its body: the method calls itself. *)
Lemma loadPlugin_unfold plugin s :
  loadPlugin env config plugin s =
  loadPlugin_body env config (loadPlugin env config) plugin s.
Proof.
  change (loadPlugin env config plugin s) with
    (loadPlugin_body env config
       (loadPlugin_fuel env config (S (size (manifests env)))) plugin s).
  apply (body_ext (S (size (manifests env)))).
  - apply loadPlugin_fuel_fresh.
  - intros d s' Hd Hk. symmetry. by apply loadPlugin_fuel_stable.
  - intros _. pose proof (unclaimed_le (push (plugin_id plugin) s)). lia.
Qed.

Lemma loadPlugin_fresh : fresh_callee (loadPlugin env config).
Proof. apply loadPlugin_fuel_fresh. Qed.

End Termination.

(** ** The configuration snapshot *)

Lemma Json_nested_ind (P : Json -> Prop) :
  P JsonUndefined -> P JsonNull -> (forall b, P (JsonBool b)) ->
  (forall z, P (JsonNum z)) -> (forall s, P (JsonStr s)) ->
  (forall fs, Forall (fun kj => P (snd kj)) fs -> P (JsonObj fs)) ->
  forall j, P j.
Proof.
  intros Hu Hn Hb Hz Hs Ho.
  fix IH 1.
  intros [| |b|z|s|fs];
    [exact Hu | exact Hn | apply Hb | apply Hz | apply Hs |].
  apply Ho. induction fs as [|[k j] r IHr]; constructor; [apply IH | exact IHr].
Qed.

Lemma alloc_obj fs h :
  alloc (JsonObj fs) h =
  let '(h1, o) := alloc_fields fs h in (h1 ++ [o], VRef (length h1)).
Proof. reflexivity. Qed.

Lemma readDeep_ref fuel h l :
  readDeep (S fuel) h (VRef l) =
  match h !! l with
  | None => None
  | Some o =>
      match mapM (readField fuel h) o with
      | Some fs => Some (JsonObj fs)
      | None => None
      end
  end.
Proof. reflexivity. Qed.

Lemma alloc_fields_ok fs :
  Forall (fun kj => alloc_ok (snd kj)) fs ->
  forall h h' o, alloc_fields fs h = (h', o) ->
    (exists news, h' = h ++ news /\ length news = nodes_fields fs) /\
    forall H fuel, agree (length h) (length h') h' H -> nodes_fields fs <= fuel ->
                   mapM (readField fuel H) o = Some fs.
Proof.
  induction 1 as [|[k j] r Hj Hr IH]; intros h h' o Ha; simpl in Ha.
  - injection Ha as <- <-. split.
    + exists []. by rewrite app_nil_r.
    + reflexivity.
  - destruct (alloc j h) as [h1 v] eqn:E1.
    destruct (alloc_fields r h1) as [h2 o2] eqn:E2.
    injection Ha as <- <-.
    destruct (Hj _ _ _ E1) as [(n1 & -> & Hn1) Hread1].
    destruct (IH _ _ _ E2) as [(n2 & -> & Hn2) Hread2].
    unfold nodes_fields in *. simpl in *. split.
    + exists (n1 ++ n2). rewrite app_assoc. split; [done|].
      rewrite length_app. lia.
    + intros H fuel Hag Hfuel. rewrite !length_app in *.
      cbn [mapM readField]. rewrite Hread1; [|
        intros l Hl; rewrite <- Hag by lia; symmetry;
        apply lookup_app_l; rewrite length_app; lia | lia].
      simpl. rewrite Hread2; [done| |lia].
      intros l Hl. apply Hag. lia.
Qed.

Lemma alloc_spec j : alloc_ok j.
Proof.
  induction j as [| | | | |fs IH] using Json_nested_ind;
    try (intros h h' v [= <- <-]; split;
         [exists []; by rewrite app_nil_r | by intros ? [|?]]).
  intros h h' v Ha. rewrite alloc_obj in Ha.
  destruct (alloc_fields fs h) as [h1 o] eqn:E. injection Ha as <- <-.
  destruct (alloc_fields_ok fs IH _ _ _ E) as [(n1 & -> & Hn1) Hread].
  change (nodes (JsonObj fs)) with (S (nodes_fields fs)). split.
  - exists (n1 ++ [o]). rewrite app_assoc. split; [done|].
    rewrite length_app. simpl. lia.
  - intros H [|fuel] Hag Hfuel; [lia|].
    rewrite readDeep_ref, <- Hag.
    2:{ rewrite !length_app. simpl. lia. }
    rewrite lookup_app_r by lia. rewrite Nat.sub_diag. simpl.
    rewrite Hread; [done| |lia].
    intros l Hl. rewrite <- Hag.
    + symmetry. apply lookup_app_l. lia.
    + rewrite (length_app (h ++ n1)). simpl. lia.
Qed.

Lemma mutate_agree lo hi h m :
  ownWrite lo hi m -> hi <= length h ->
  agree lo hi h (mutate h m) /\ length h <= length (mutate h m).
Proof.
  destruct m as [l k v|o]; simpl.
  - intros Hl Hhi. destruct (h !! l) as [o|] eqn:E.
    + split; [|by rewrite length_insert].
      intros l' Hl'. symmetry. apply list_lookup_insert_ne. lia.
    + split; [done|lia].
  - intros _ Hhi. split; [|rewrite length_app; lia].
    intros l Hl. symmetry. apply lookup_app_l. lia.
Qed.

Lemma mutateAll_agree lo hi ms : forall h,
  Forall (ownWrite lo hi) ms -> hi <= length h ->
  agree lo hi h (mutateAll ms h) /\ length h <= length (mutateAll ms h).
Proof.
  induction ms as [|m r IH]; intros h Hall Hhi; simpl.
  - done.
  - apply Forall_cons in Hall as [Hm Hr].
    destruct (mutate_agree lo hi h m Hm Hhi) as [Ha Hl].
    destruct (IH (mutate h m) Hr ltac:(lia)) as [Ha' Hl'].
    split; [|lia]. intros l Hrange. rewrite Ha by done. by apply Ha'.
Qed.

(** ** Claims: never removed, never repeated within a call *)




Lemma grows_elem s s' t x :
  grows s s' t -> x ∈ _pluginsLoaded s -> x ∈ _pluginsLoaded s'.
Proof. intros [_ ->] Hx. apply elem_of_app. by left. Qed.

Section Claims.
Context (env : Env) (config : FrameworkConfig).

(** A call adds its own claim first, then fresh ones. *)
Lemma loadPlugin_claims plugin s :
  exists t,
    fresh_grows (push (plugin_id plugin) s)
      (snd (loadPlugin env config plugin s)) t /\
    grows s (snd (loadPlugin env config plugin s))
      (EvClaim (plugin_id plugin) :: t).
Proof.
  rewrite loadPlugin_unfold.
  destruct (body_fresh env config (loadPlugin env config) plugin s
              (loadPlugin_fresh env config)) as [t Ht].
  exists t. split; [done|].
  change (EvClaim (plugin_id plugin) :: t)
    with ([EvClaim (plugin_id plugin)] ++ t).
  eapply grows_trans; [apply push_grows | by apply fresh_grows_grows].
Qed.

Lemma loadPlugin_claimed plugin s :
  plugin_id plugin ∈ _pluginsLoaded (snd (loadPlugin env config plugin s)).
Proof.
  destruct (loadPlugin_claims plugin s) as (t & _ & _ & ->).
  simpl. apply elem_of_app. right. left.
Qed.



(** A dependency the array already holds is passed over. *)
Lemma loop_skips rec deps s :
  (forall d, d ∈ deps -> plugin_id d ∈ _pluginsLoaded s) ->
  loadDependencies_loop rec deps s = (Return tt, s).
Proof.
  induction deps as [|d rest IH]; intros Hall; simpl; [done|].
  rewrite indexOf_test. rewrite bool_decide_eq_false_2.
  - apply IH. intros d' Hd'. apply Hall. by right.
  - intros Hn. apply Hn, Hall. left.
Qed.

(** The array stays free of duplicates across a call for a new id. *)
Lemma loadPlugin_NoDup plugin s :
  NoDup (_pluginsLoaded s) -> plugin_id plugin ∉ _pluginsLoaded s ->
  NoDup (_pluginsLoaded (snd (loadPlugin env config plugin s))).
Proof.
  intros Hn Hp.
  destruct (loadPlugin_fresh env config plugin s Hp)
    as (t & [_ ->] & Hnd & Hf).
  apply NoDup_app. repeat split; [done| |done].
  intros x Hx Hx'. by apply (Hf x).
Qed.

End Claims.

Lemma construct_snapshot h config h1 loader :
  construct h config = Some (h1, loader) ->
  exists j,
    readDeep (S (length h)) h config = Some j /\
    length h <= length h1 /\
    forall H, agree (length h) (length h1) h1 H -> length h1 <= length H ->
              getConfig H loader = Some j.
Proof.
  unfold construct, cloneDeep. intros Hc.
  destruct (readDeep (S (length h)) h config) as [j|] eqn:Hj; [|done].
  destruct (alloc j h) as [h' c] eqn:Ha. injection Hc as <- <-.
  destruct (alloc_spec j _ _ _ Ha) as [(news & -> & Hn) Hread].
  exists j. split; [done|]. split; [rewrite length_app; lia|].
  intros H Hag Hlen. unfold getConfig. cbn [_config].
  apply Hread; [done|]. rewrite length_app in Hlen. lia.
Qed.

(** ** The stages of a plugin whose modules work *)

Section Healthy.
Context (env : Env) (config : FrameworkConfig).

Lemma ownStages_eq m s :
  ownStages env config m s =
  let s1 := emit (EvPrepare (manifest_id m))
              (detach (schemaJobs env config m) s) in
  match constructed env config m with
  | inl err => (Throw (FrameworkError PLUGIN_LOAD_FAILED err), s1)
  | inr i =>
      let s2 := emit (EvInstantiate (manifest_id m))
                  (setInstance (manifest_id m) i s1) in
      match routed env config m with
      | Some err => (Throw (FrameworkError ROUTE_REGISTRY_FAILED err), s2)
      | None => (Return tt, emit (EvRoutes (manifest_id m)) s2)
      end
  end.
Proof.
  unfold ownStages, preparePlugin, loadDBSchema, instantiatePlugin,
    registerRoutes, constructed, routed, await, effect, throw.
  cbn [fst snd]. fold (schemaJobs env config m).
  destruct (servers env !! _) as [pluginClass|]; [|done].
  destruct (pluginClass config m) as [err|i]; [done|].
  destruct (getRouter env m); [done|].
  destruct (routers env !! _) as [init|]; [|done].
  by destruct (init m).
Qed.

Lemma loadPlugin_found pluginId m s :
  manifests env !! manifestPath config pluginId = Some (inr m) ->
  loadPlugin env config (plugin pluginId) s =
  match loadDependencies (loadPlugin env config) m
          (emit (EvManifest pluginId) (push pluginId s)) with
  | (Return _, s2) => ownStages env config m s2
  | (Throw e, s2) => (Throw e, s2)
  | (Diverge, s2) => (Diverge, s2)
  end.
Proof.
  intros Hm. rewrite loadPlugin_unfold, loadPlugin_body_eq.
  unfold getManifest. simpl. by rewrite Hm.
Qed.

(** The three ways the own stages of a plugin can end. *)
Lemma ownStages_cases (P : Completion unit * State -> Prop) m s :
  (forall err, P (Throw err, prepared env config m s)) ->
  (forall err i, P (Throw err, instantiated env config m i s)) ->
  (forall i, P (Return tt, finished env config m i s)) ->
  P (ownStages env config m s).
Proof.
  intros Hprep Hinst Hfin. rewrite ownStages_eq. cbv zeta.
  destruct (constructed env config m) as [err|i]; [apply Hprep|].
  destruct (routed env config m); [apply Hinst | apply Hfin].
Qed.

(** The same, with what the constructor and the router did. *)
Lemma ownStages_outcome (P : Completion unit * State -> Prop) m s :
  (forall err, constructed env config m = inl err ->
     P (Throw (FrameworkError PLUGIN_LOAD_FAILED err),
        prepared env config m s)) ->
  (forall i err, constructed env config m = inr i ->
     routed env config m = Some err ->
     P (Throw (FrameworkError ROUTE_REGISTRY_FAILED err),
        instantiated env config m i s)) ->
  (forall i, constructed env config m = inr i -> routed env config m = None ->
     P (Return tt, finished env config m i s)) ->
  P (ownStages env config m s).
Proof.
  intros Hprep Hinst Hfin. rewrite ownStages_eq. cbv zeta.
  destruct (constructed env config m) as [err|i] eqn:Hc; [by apply Hprep|].
  destruct (routed env config m) eqn:Hr; [by apply Hinst | by apply Hfin].
Qed.

Lemma loadPlugin_healthy pluginId m i deps s :
  healthy env config m i -> manifest_id m = pluginId ->
  dependencies (server m) = Some deps ->
  loadPlugin env config (plugin pluginId) s =
  match loadDependencies_loop (loadPlugin env config) deps
          (emit (EvManifest pluginId) (push pluginId s)) with
  | (Return _, s2) => (Return tt, finished env config m i s2)
  | (Throw e, s2) => (Throw e, s2)
  | (Diverge, s2) => (Diverge, s2)
  end.
Proof.
  intros (Hm & Hc & Hr) Hid Hdeps. rewrite Hid in Hm.
  rewrite (loadPlugin_found _ _ _ Hm). unfold loadDependencies.
  rewrite Hdeps.
  destruct (loadDependencies_loop _ _ _) as [[[]| e |] s2]; try done.
  by rewrite ownStages_eq, Hc, Hr.
Qed.

Lemma loop_nil rec s : loadDependencies_loop rec [] s = (Return tt, s).
Proof. reflexivity. Qed.

Lemma loop_cons_new rec d rest s :
  plugin_id d ∉ _pluginsLoaded s ->
  loadDependencies_loop rec (d :: rest) s =
  match rec d s with
  | (Return _, s1) => loadDependencies_loop rec rest s1
  | (Throw e, s1) => (Throw e, s1)
  | (Diverge, s1) => (Diverge, s1)
  end.
Proof.
  intros Hn. cbn [loadDependencies_loop]. rewrite indexOf_test.
  by rewrite bool_decide_eq_true_2.
Qed.

Lemma loop_cons_old rec d rest s :
  plugin_id d ∈ _pluginsLoaded s ->
  loadDependencies_loop rec (d :: rest) s =
  loadDependencies_loop rec rest s.
Proof.
  intros Hn. cbn [loadDependencies_loop]. rewrite indexOf_test.
  rewrite bool_decide_eq_false_2; [done|]. intros H. by apply H.
Qed.

End Healthy.

(** ** A manifest that cannot be read *)

Section Fatal.
Context (env : Env) (config : FrameworkConfig) (d : string).
Hypothesis unreadable :
  forall m, manifests env !! manifestPath config d <> Some (inr m).

Lemma loop_fatal rec deps :
  fresh_callee rec -> (forall p, fatal env config d (rec p)) ->
  fatal env config d (loadDependencies_loop rec deps).
Proof.
  intros Hf Hrec. induction deps as [|d0 rest IH]; intros s t Hlog Hin.
  - simpl in Hlog. rewrite <- (app_nil_r (log s)) in Hlog at 1.
    apply app_inv_head in Hlog as <-. by apply elem_of_nil in Hin.
  - revert Hlog. cbn [loadDependencies_loop]. rewrite indexOf_test.
    case_bool_decide as Hg; [|intros Hlog; by apply (IH s t)].
    unfold await. destruct (Hf d0 s Hg) as (t1 & [Hl1 _] & _).
    pose proof (Hrec d0 s t1 Hl1) as H1.
    destruct (rec d0 s) as [[[]| e |] s1]; cbn [fst snd] in *.
    + pose proof (loop_fresh rec rest s1 Hf) as (t2 & [Hl2 _] & _).
      intros Hlog. rewrite Hl2, Hl1, <- app_assoc in Hlog.
      apply app_inv_head in Hlog as <-.
      apply elem_of_app in Hin as [Hin|Hin]; [by destruct (H1 Hin)|].
      destruct (IH s1 t2 Hl2 Hin) as (Hthrow & t0 & ->).
      split; [done|]. exists (t1 ++ t0). by rewrite app_assoc.
    + intros Hlog. rewrite Hl1 in Hlog. apply app_inv_head in Hlog as <-.
      by apply H1.
    + intros Hlog. rewrite Hl1 in Hlog. apply app_inv_head in Hlog as <-.
      by apply H1.
Qed.

Lemma loadDependencies_fatal rec m :
  fresh_callee rec -> (forall p, fatal env config d (rec p)) ->
  fatal env config d (loadDependencies rec m).
Proof.
  intros Hf Hrec. unfold loadDependencies.
  destruct (dependencies (server m)); [by apply loop_fatal|].
  intros s t Hlog Hin. simpl in Hlog.
  rewrite <- (app_nil_r (log s)) in Hlog at 1.
  apply app_inv_head in Hlog as <-. by apply elem_of_nil in Hin.
Qed.

Lemma body_fatal rec plugin :
  fresh_callee rec -> (forall p, fatal env config d (rec p)) ->
  fatal env config d (loadPlugin_body env config rec plugin).
Proof.
  intros Hf Hrec s t. rewrite loadPlugin_body_eq.
  unfold getManifest. cbv zeta.
  destruct (manifests env !! manifestPath config (plugin_id plugin))
    as [[err|m]|] eqn:Hm; unfold throw, await, effect, ret; cbn [fst snd].
  - (* the manifest module threw *)
    simpl. intros Hlog Hin. apply app_inv_head in Hlog as <-.
    apply list_elem_of_singleton in Hin. injection Hin as Hd.
    unfold lookupError. rewrite Hd, Hm. split; [done|]. by exists [].
  - (* the manifest is there: the failure is further down *)
    assert (plugin_id plugin <> d) as Hne.
    { intros Heq. rewrite Heq in Hm. by apply (unreadable m). }
    set (s1 := emit _ (push _ s)).
    destruct (loadDependencies_fresh rec m s1 Hf) as (t2 & [Hl2 _] & _).
    pose proof (loadDependencies_fatal rec m Hf Hrec s1 t2 Hl2) as Hloop.
    assert (log s1 = log s ++ [EvClaim (plugin_id plugin);
                               EvManifest (plugin_id plugin)]) as Hs1.
    { subst s1. simpl. by rewrite <- app_assoc. }
    revert Hl2 Hloop.
    destruct (loadDependencies rec m s1) as [[[]| e |] s2];
      cbn [fst snd]; intros Hl2 Hloop Hlog Hin.
    + destruct (ownStages_quiet env config m s2) as (_ & t3 & [Hl3 _] & Hq).
      rewrite Hl3, Hl2, Hs1, <- !app_assoc in Hlog.
      apply app_inv_head in Hlog as <-.
      simpl in Hin. apply elem_of_cons in Hin as [Hin|Hin]; [congruence|].
      apply elem_of_cons in Hin as [Hin|Hin]; [done|].
      apply elem_of_app in Hin as [Hin|Hin]; [by destruct (Hloop Hin)|].
      apply elem_claimsOf in Hin. rewrite Hq in Hin.
      by apply elem_of_nil in Hin.
    + rewrite Hl2, Hs1, <- !app_assoc in Hlog.
      apply app_inv_head in Hlog as <-.
      simpl in Hin. apply elem_of_cons in Hin as [Hin|Hin]; [congruence|].
      apply elem_of_cons in Hin as [Hin|Hin]; [done|].
      destruct (Hloop Hin) as (Hthrow & t0 & ->). split; [done|].
      by exists (EvClaim (plugin_id plugin) :: EvManifest (plugin_id plugin) :: t0).
    + rewrite Hl2, Hs1, <- !app_assoc in Hlog.
      apply app_inv_head in Hlog as <-.
      simpl in Hin. apply elem_of_cons in Hin as [Hin|Hin]; [congruence|].
      apply elem_of_cons in Hin as [Hin|Hin]; [done|].
      by destruct (Hloop Hin).
  - (* there is no manifest module *)
    simpl. intros Hlog Hin. apply app_inv_head in Hlog as <-.
    apply list_elem_of_singleton in Hin. injection Hin as Hd.
    unfold lookupError. rewrite Hd, Hm. split; [done|]. by exists [].
Qed.

Lemma loadPlugin_fuel_fatal fuel plugin :
  fatal env config d (loadPlugin_fuel env config fuel plugin).
Proof.
  revert plugin. induction fuel as [|n IH]; intros plugin.
  - intros s t Hlog Hin. simpl in Hlog.
    rewrite <- (app_nil_r (log s)) in Hlog at 1.
    apply app_inv_head in Hlog as <-. by apply elem_of_nil in Hin.
  - apply body_fatal; [apply loadPlugin_fuel_fresh | exact IH].
Qed.

End Fatal.

(** ** The log of a load that returned *)

Section Order.
Context (env : Env) (config : FrameworkConfig).


End Order.

(** ** Detached schema jobs are invisible to the caller *)

Lemma alike_ret {A} (a : A) : alike (ret a) (ret a).
Proof. by intros s s' H. Qed.

Lemma alike_throw {A} (e : Thrown) : alike (@throw A e) (throw e).
Proof. by intros s s' H. Qed.

Lemma alike_await {A B} (m m' : Async A) (k k' : A -> Async B) :
  alike m m' -> (forall a, alike (k a) (k' a)) -> alike (await m k) (await m' k').
Proof.
  intros Hm Hk s s' Hs. unfold await.
  destruct (Hm s s' Hs) as [Hf Hsame].
  destruct (m s) as [[a| e |] s1], (m' s') as [[a'| e' |] s1'];
    simpl in Hf; try discriminate Hf; simpl in Hsame.
  - injection Hf as <-. by apply Hk.
  - by injection Hf as <-.
  - done.
Qed.

Lemma alike_effect (f f' : State -> State) :
  (forall s s', sameButDetached s s' -> sameButDetached (f s) (f' s')) ->
  alike (effect f) (effect f').
Proof. intros Hf s s' Hs. split; [done|]. by apply Hf. Qed.

Section Unobserved.
Context (env : Env) (config : FrameworkConfig).
Context (files : string -> list string).
Context (create : string -> Manifest -> option RootError).

Let env' := withSchemas files create env.

Lemma getManifest_alike plugin :
  alike (getManifest env config plugin) (getManifest env' config plugin).
Proof.
  unfold getManifest. simpl.
  destruct (manifests env !! _) as [[err|m]|]; try apply alike_throw.
  apply alike_await; [|intros; apply alike_ret].
  apply alike_effect. intros s s' (Hp & Hi & Hl).
  repeat split; simpl; congruence.
Qed.

Lemma ownStages_alike m :
  alike (ownStages env config m) (ownStages env' config m).
Proof.
  unfold ownStages, preparePlugin, loadDBSchema, instantiatePlugin,
    registerRoutes. simpl.
  apply alike_await.
  { apply alike_await; intros; apply alike_effect;
      intros s s' (Hp & Hi & Hl); repeat split; simpl; congruence. }
  intros _. apply alike_await.
  { destruct (servers env !! _) as [pluginClass|]; [|apply alike_throw].
    destruct (pluginClass config m); [apply alike_throw|].
    apply alike_await; intros; apply alike_effect;
      intros s s' (Hp & Hi & Hl); repeat split; simpl; congruence. }
  intros _. destruct (getRouter env m); [apply alike_throw|].
  destruct (routers env !! _) as [init|]; [|apply alike_throw].
  destruct (init m); [apply alike_throw|].
  apply alike_effect. intros s s' (Hp & Hi & Hl).
  repeat split; simpl; congruence.
Qed.

Lemma loop_alike rec rec' deps :
  (forall d, alike (rec d) (rec' d)) ->
  alike (loadDependencies_loop rec deps) (loadDependencies_loop rec' deps).
Proof.
  intros Hrec. induction deps as [|d rest IH]; [apply alike_ret|].
  intros s s' Hs. cbn [loadDependencies_loop].
  destruct Hs as (Hp & Hi & Hl). rewrite <- Hp.
  destruct (indexOf (_pluginsLoaded s) (plugin_id d) =? -1)%Z.
  - apply alike_await; [apply Hrec | intros; apply IH | by repeat split].
  - by apply IH.
Qed.

Lemma body_alike rec rec' plugin :
  (forall d, alike (rec d) (rec' d)) ->
  alike (loadPlugin_body env config rec plugin)
        (loadPlugin_body env' config rec' plugin).
Proof.
  intros Hrec. unfold loadPlugin_body.
  apply alike_await.
  { apply alike_effect. intros s s' (Hp & Hi & Hl).
    repeat split; simpl; congruence. }
  intros _. apply alike_await; [apply getManifest_alike|].
  intros m. apply alike_await; [|intros; apply ownStages_alike].
  rewrite dependenciesGuard_true. unfold loadDependencies.
  destruct (dependencies (server m)); [by apply loop_alike|].
  apply alike_throw.
Qed.

Lemma loadPlugin_fuel_alike fuel plugin :
  alike (loadPlugin_fuel env config fuel plugin)
        (loadPlugin_fuel env' config fuel plugin).
Proof.
  revert plugin. induction fuel as [|n IH]; intros plugin.
  - by intros s s' Hs.
  - by apply body_alike.
Qed.

(** Whatever files [glob] finds and whatever their loaders do, the
    outcome of [loadPlugin], the claims, the instances and the log are
    those of a directory without any schema file. *)
Lemma schema_outcome_unobserved plugin s :
  fst (loadPlugin env' config plugin s) = fst (loadPlugin env config plugin s) /\
  sameButDetached (snd (loadPlugin env config plugin s))
                  (snd (loadPlugin env' config plugin s)).
Proof.
  destruct (loadPlugin_fuel_alike (S (S (size (manifests env)))) plugin s s)
    as [Hf Hs]; [done|].
  split; [symmetry; exact Hf | exact Hs].
Qed.

End Unobserved.

(** ** Every run of [loadPlugin] is a derivation *)

Section Adequacy.
Context (env : Env) (config : FrameworkConfig).

Lemma grows_start p s :
  grows s (emit (EvManifest p) (push p s)) [EvClaim p; EvManifest p].
Proof. split; simpl; by rewrite <- ?app_assoc. Qed.

Lemma grows_prepared m s :
  grows s (prepared env config m s) [EvPrepare (manifest_id m)].
Proof. split; simpl; by rewrite ?app_nil_r. Qed.

Lemma grows_instantiated m i s :
  grows s (instantiated env config m i s)
    [EvPrepare (manifest_id m); EvInstantiate (manifest_id m)].
Proof. split; simpl; by rewrite ?app_nil_r, <- ?app_assoc. Qed.

Lemma grows_finished m i s :
  grows s (finished env config m i s)
    [EvPrepare (manifest_id m); EvInstantiate (manifest_id m);
     EvRoutes (manifest_id m)].
Proof. split; simpl; by rewrite ?app_nil_r, <- ?app_assoc. Qed.

Lemma grows_load p s s2 s3 t u :
  grows (emit (EvManifest p) (push p s)) s2 t -> grows s2 s3 u ->
  grows s s3 (EvClaim p :: EvManifest p :: t ++ u).
Proof.
  intros H2 H3.
  change (EvClaim p :: EvManifest p :: t ++ u)
    with ([EvClaim p; EvManifest p] ++ t ++ u).
  eapply grows_trans; [apply grows_start|]. by eapply grows_trans.
Qed.

Lemma Load_grows_mutual :
  (forall p s c s' t, Load env config p s c s' t -> grows s s' t) /\
  (forall ds s c s' t, LoadDeps env config ds s c s' t -> grows s s' t).
Proof.
  apply Load_mutual.
  - intros p s _. apply push_grows.
  - intros p s m _ _. apply grows_start.
  - intros p s m deps e s2 t _ _ _ H.
    rewrite <- (app_nil_r t). eapply grows_load; [exact H | apply grows_refl].
  - intros p s m deps s2 t err _ _ _ H _.
    eapply grows_load; [exact H | apply grows_prepared].
  - intros p s m deps s2 t i err _ _ _ H _ _.
    eapply grows_load; [exact H | apply grows_instantiated].
  - intros p s m deps s2 t i _ _ _ H _ _.
    eapply grows_load; [exact H | apply grows_finished].
  - intros s. apply grows_refl.
  - intros d rest s c s' t _ _ H. exact H.
  - intros d rest s e s1 t _ _ H. exact H.
  - intros d rest s s1 t1 c s2 t2 _ _ H1 _ H2. by eapply grows_trans.
Qed.

Lemma Load_grows p s c s' t : Load env config p s c s' t -> grows s s' t.
Proof. apply Load_grows_mutual. Qed.

Lemma LoadDeps_grows ds s c s' t :
  LoadDeps env config ds s c s' t -> grows s s' t.
Proof. apply Load_grows_mutual. Qed.

(** The loop, when every call it may make is a derivation. *)
Lemma loop_LoadDeps deps : forall s,
  (forall d s', plugin_id d ∉ _pluginsLoaded s' ->
                unclaimed env config s' <= unclaimed env config s ->
                exists t, Load env config d s'
                            (fst (loadPlugin env config d s'))
                            (snd (loadPlugin env config d s')) t) ->
  exists t, LoadDeps env config deps s
              (fst (loadDependencies_loop (loadPlugin env config) deps s))
              (snd (loadDependencies_loop (loadPlugin env config) deps s)) t.
Proof.
  induction deps as [|d rest IH]; intros s Hrec.
  - exists []. constructor.
  - destruct (decide (plugin_id d ∈ _pluginsLoaded s)) as [Hin|Hout].
    + rewrite loop_cons_old by done. destruct (IH s Hrec) as [t Ht].
      exists t. by constructor.
    + rewrite loop_cons_new by done.
      destruct (Hrec d s Hout (Nat.le_refl _)) as [t1 H1].
      pose proof (loadPlugin_total env config d s) as Hnd.
      destruct (loadPlugin env config d s) as [[[]| e |] s1];
        cbn [fst snd] in *; [| |done].
      * destruct (IH s1) as [t2 H2].
        { intros d' s' Hd' Hle. apply Hrec; [done|].
          apply Load_grows in H1. apply (unclaimed_grows env config) in H1. lia. }
        exists (t1 ++ t2). by eapply Deps_next.
      * exists t1. by apply Deps_throw.
Qed.

Lemma body_Load p s :
  (is_Some (manifests env !! manifestPath config (plugin_id p)) ->
   forall d s', plugin_id d ∉ _pluginsLoaded s' ->
                unclaimed env config s' <=
                  unclaimed env config (push (plugin_id p) s) ->
                exists t, Load env config d s'
                            (fst (loadPlugin env config d s'))
                            (snd (loadPlugin env config d s')) t) ->
  exists t, Load env config p s (fst (loadPlugin env config p s))
              (snd (loadPlugin env config p s)) t.
Proof.
  intros Hrec. destruct p as [pid]. cbn [plugin_id] in *.
  destruct (manifests env !! manifestPath config pid) as [[err|m]|] eqn:Hm.
  - exists [EvClaim pid].
    assert (loadPlugin env config {| plugin_id := pid |} s =
            (Throw (FrameworkError MANIFEST_NOT_FOUND
                      (lookupError env config pid)), push pid s)) as ->.
    { rewrite loadPlugin_unfold, loadPlugin_body_eq. unfold getManifest.
      cbn [plugin_id]. unfold lookupError. by rewrite Hm. }
    apply (Load_unreadable env config {| plugin_id := pid |}).
    cbn [plugin_id]. intros m. by rewrite Hm.
  - change {| plugin_id := pid |} with (plugin pid).
    rewrite (loadPlugin_found env config pid m s Hm).
    unfold loadDependencies.
    destruct (dependencies (server m)) as [deps|] eqn:Hdeps.
    + destruct (loop_LoadDeps deps (emit (EvManifest pid) (push pid s)))
        as [t Ht].
      { intros d s' Hd Hle. apply Hrec; [by eexists|done|done]. }
      pose proof (loop_total env config (S (unclaimed env config (push pid s)))
                    (loadPlugin env config) deps
                    (emit (EvManifest pid) (push pid s))
                    (loadPlugin_fresh env config)) as Hnd.
      destruct (loadDependencies_loop _ deps _) as [[[]| e |] s2];
        cbn [fst snd] in *.
      * rewrite ownStages_eq. cbv zeta.
        destruct (constructed env config m) as [err|i] eqn:Hc.
        { eexists. by eapply (Load_constructor env config (plugin pid)). }
        destruct (routed env config m) as [err|] eqn:Hr.
        { eexists. by eapply (Load_routes env config (plugin pid)). }
        eexists. by eapply (Load_done env config (plugin pid)).
      * eexists. by eapply (Load_dependency env config (plugin pid)).
      * exfalso. apply Hnd; [|rewrite unclaimed_emit; lia|done].
        intros d s' _ _. apply loadPlugin_total.
    + exists [EvClaim pid; EvManifest pid].
      by apply (Load_notIterable env config (plugin pid) s m).
  - exists [EvClaim pid].
    assert (loadPlugin env config {| plugin_id := pid |} s =
            (Throw (FrameworkError MANIFEST_NOT_FOUND
                      (lookupError env config pid)), push pid s)) as ->.
    { rewrite loadPlugin_unfold, loadPlugin_body_eq. unfold getManifest.
      cbn [plugin_id]. unfold lookupError. by rewrite Hm. }
    apply (Load_unreadable env config {| plugin_id := pid |}).
    cbn [plugin_id]. intros m. by rewrite Hm.
Qed.

Lemma loadPlugin_Load_fresh k : forall d s,
  plugin_id d ∉ _pluginsLoaded s -> unclaimed env config s < k ->
  exists t, Load env config d s (fst (loadPlugin env config d s))
              (snd (loadPlugin env config d s)) t.
Proof.
  induction k as [|k IH]; intros d s Hd Hk; [lia|].
  apply body_Load. intros Hm d' s' Hd' Hle. apply IH; [done|].
  pose proof (unclaimed_push env config _ s Hm Hd). lia.
Qed.

(** Whatever the directory, the plugin and the state, the run of
    [loadPlugin] follows the rules of [Load], and what it logs is what
    the rules say. *)
Lemma loadPlugin_Load p s :
  exists t,
    Load env config p s (fst (loadPlugin env config p s))
      (snd (loadPlugin env config p s)) t /\
    log (snd (loadPlugin env config p s)) = log s ++ t.
Proof.
  destruct (body_Load p s) as [t Ht].
  { intros _ d s' Hd _.
    apply (loadPlugin_Load_fresh (S (unclaimed env config s'))); [done|lia]. }
  exists t. split; [done|]. by apply Load_grows in Ht as [Hl _].
Qed.

(** The log a run adds is the one of its derivation. *)
Lemma loadPlugin_Load_log p s t :
  log (snd (loadPlugin env config p s)) = log s ++ t ->
  Load env config p s (fst (loadPlugin env config p s))
    (snd (loadPlugin env config p s)) t.
Proof.
  intros Hlog. destruct (loadPlugin_Load p s) as (t' & Ht & Hl).
  rewrite Hl in Hlog. by apply app_inv_head in Hlog as <-.
Qed.

End Adequacy.

(** ** Properties kept by every step of a run *)

Section Compositional.
Context (env : Env) (config : FrameworkConfig).
Context (R : State -> State -> list Event -> Prop).
Hypothesis R_refl : forall s, R s s [].
Hypothesis R_trans : forall s1 s2 s3 t u,
  R s1 s2 t -> R s2 s3 u -> R s1 s3 (t ++ u).
Hypothesis R_claim : forall p s, R s (push p s) [EvClaim p].
Hypothesis R_manifest : forall p s,
  R s (emit (EvManifest p) (push p s)) [EvClaim p; EvManifest p].
Hypothesis R_prepared : forall m s,
  R s (prepared env config m s) [EvPrepare (manifest_id m)].
Hypothesis R_instantiated : forall m i s,
  R s (instantiated env config m i s)
    [EvPrepare (manifest_id m); EvInstantiate (manifest_id m)].
Hypothesis R_finished : forall m i s,
  R s (finished env config m i s)
    [EvPrepare (manifest_id m); EvInstantiate (manifest_id m);
     EvRoutes (manifest_id m)].

Lemma R_load p s s2 s3 t u :
  R (emit (EvManifest p) (push p s)) s2 t -> R s2 s3 u ->
  R s s3 (EvClaim p :: EvManifest p :: t ++ u).
Proof.
  intros H2 H3.
  change (EvClaim p :: EvManifest p :: t ++ u)
    with ([EvClaim p; EvManifest p] ++ t ++ u).
  eapply R_trans; [apply R_manifest|]. by eapply R_trans.
Qed.

(** A relation that holds of the five things a load does, and composes,
    holds of every run. *)
Lemma Load_compositional :
  (forall p s c s' t, Load env config p s c s' t -> R s s' t) /\
  (forall ds s c s' t, LoadDeps env config ds s c s' t -> R s s' t).
Proof.
  apply Load_mutual.
  - intros p s _. apply R_claim.
  - intros p s m _ _. apply R_manifest.
  - intros p s m deps e s2 t _ _ _ H.
    rewrite <- (app_nil_r t). eapply R_load; [exact H | apply R_refl].
  - intros p s m deps s2 t err _ _ _ H _.
    eapply R_load; [exact H | apply R_prepared].
  - intros p s m deps s2 t i err _ _ _ H _ _.
    eapply R_load; [exact H | apply R_instantiated].
  - intros p s m deps s2 t i _ _ _ H _ _.
    eapply R_load; [exact H | apply R_finished].
  - intros s. apply R_refl.
  - intros d rest s c s' t _ _ H. exact H.
  - intros d rest s e s1 t _ _ H. exact H.
  - intros d rest s s1 t1 c s2 t2 _ _ H1 _ H2. by eapply R_trans.
Qed.

Lemma loadPlugin_compositional p s :
  exists t, log (snd (loadPlugin env config p s)) = log s ++ t /\
            R s (snd (loadPlugin env config p s)) t.
Proof.
  destruct (loadPlugin_Load env config p s) as (t & Ht & Hl).
  exists t. split; [done|]. exact (proj1 Load_compositional _ _ _ _ _ Ht).
Qed.

End Compositional.

(** ** What a run changes in the registry and in the pending jobs *)

Lemma instantiationsOf_app (t u : list Event) :
  instantiationsOf (t ++ u) = instantiationsOf t ++ instantiationsOf u.
Proof. apply flat_map_app. Qed.

Lemma framed_refl s : framed s s [].
Proof. intros k. split; [done|]. intros H. inversion H. Qed.

Lemma framed_trans s1 s2 s3 t u :
  framed s1 s2 t -> framed s2 s3 u -> framed s1 s3 (t ++ u).
Proof.
  intros H1 H2 k. rewrite instantiationsOf_app.
  destruct (H1 k) as [H1out H1in], (H2 k) as [H2out H2in]. split.
  - intros Hk. rewrite H2out, H1out; [done| |];
      intros Hin; apply Hk, elem_of_app; tauto.
  - intros Hk. destruct (decide (k ∈ instantiationsOf u)) as [Hu|Hu].
    + by apply H2in.
    + rewrite H2out by done. apply H1in.
      apply elem_of_app in Hk as [Hk|Hk]; [done|contradiction].
Qed.

Lemma framed_quiet s s' t :
  instances s' = instances s -> instantiationsOf t = [] -> framed s s' t.
Proof.
  intros Hi Ht k. rewrite Hi, Ht. split; [done|]. intros H. inversion H.
Qed.

Lemma framed_set m i s s' t :
  instances s' = <[manifest_id m := i]> (instances s) ->
  instantiationsOf t = [manifest_id m] -> framed s s' t.
Proof.
  intros Hi Ht k. rewrite Hi, Ht. split.
  - intros Hk. apply lookup_insert_ne. intros <-. apply Hk. left.
  - intros Hk. apply list_elem_of_singleton in Hk as ->.
    rewrite lookup_insert_eq. by eexists.
Qed.

Lemma jobStartedIn_app env config t u j :
  jobStartedIn env config t j \/ jobStartedIn env config u j ->
  jobStartedIn env config (t ++ u) j.
Proof.
  intros [(Hp & Hg & Hr)|(Hp & Hg & Hr)]; (split; [|by split]);
    apply elem_of_app; tauto.
Qed.

Lemma jobsFrom_refl env config s : jobsFrom env config s s [].
Proof. exists []. split; [by rewrite app_nil_r | constructor]. Qed.

Lemma jobsFrom_trans env config s1 s2 s3 t u :
  jobsFrom env config s1 s2 t -> jobsFrom env config s2 s3 u ->
  jobsFrom env config s1 s3 (t ++ u).
Proof.
  intros (js1 & Hd1 & H1) (js2 & Hd2 & H2). exists (js1 ++ js2). split.
  - by rewrite Hd2, Hd1, app_assoc.
  - apply Forall_app. split.
    + eapply Forall_impl; [exact H1|]. intros j Hj.
      apply jobStartedIn_app. by left.
    + eapply Forall_impl; [exact H2|]. intros j Hj.
      apply jobStartedIn_app. by right.
Qed.

Lemma jobsFrom_quiet env config s s' t :
  detached s' = detached s -> jobsFrom env config s s' t.
Proof. intros Hd. exists []. split; [by rewrite app_nil_r | constructor]. Qed.

Lemma jobsFrom_prepare env config m s s' t :
  detached s' = detached s ++ schemaJobs env config m ->
  EvPrepare (manifest_id m) ∈ t ->
  jobsFrom env config s s' t.
Proof.
  intros Hd Hin. exists (schemaJobs env config m). split; [done|].
  unfold schemaJobs. apply Forall_forall. intros j Hj.
  apply list_elem_of_fmap in Hj as (path & -> & Hpath).
  split; [exact Hin|]. split; [exact Hpath|].
  unfold schemaJob. cbn [job_rejection].
  destruct (schemaCreate env path m); [right; by eexists | by left].
Qed.

(** What a run changed, read off the log it added. *)
Lemma loadPlugin_framed env config p s t :
  log (snd (loadPlugin env config p s)) = log s ++ t ->
  framed s (snd (loadPlugin env config p s)) t.
Proof.
  intros Hlog. apply loadPlugin_Load_log in Hlog. revert Hlog.
  apply (Load_compositional env config framed).
  - apply framed_refl.
  - apply framed_trans.
  - intros q s0. by apply framed_quiet.
  - intros q s0. by apply framed_quiet.
  - intros m s0. by apply framed_quiet.
  - intros m i s0. by apply (framed_set m i).
  - intros m i s0. by apply (framed_set m i).
Qed.

Lemma loadPlugin_jobsFrom env config p s t :
  log (snd (loadPlugin env config p s)) = log s ++ t ->
  jobsFrom env config s (snd (loadPlugin env config p s)) t.
Proof.
  intros Hlog. apply loadPlugin_Load_log in Hlog. revert Hlog.
  apply (Load_compositional env config (jobsFrom env config)).
  - apply jobsFrom_refl.
  - apply jobsFrom_trans.
  - intros q s0. by apply jobsFrom_quiet.
  - intros q s0. by apply jobsFrom_quiet.
  - intros m s0. apply (jobsFrom_prepare env config m); [done|left].
  - intros m i s0. apply (jobsFrom_prepare env config m); [done|left].
  - intros m i s0. apply (jobsFrom_prepare env config m); [done|left].
Qed.

(** ** The jobs of one plugin *)

Lemma jobsOf_app x (js ks : list SchemaJob) :
  jobsOf x (js ++ ks) = jobsOf x js ++ jobsOf x ks.
Proof. apply List.filter_app. Qed.

Lemma jobsOf_schemaJobs_same env config m x :
  manifest_id m = x ->
  jobsOf x (schemaJobs env config m) = schemaJobs env config m.
Proof.
  intros <-. unfold jobsOf, schemaJobs.
  induction (glob env (schemaPattern config (manifest_id m))) as [|f fs IH];
    [done|].
  cbn [map List.filter schemaJob job_plugin].
  by rewrite String.eqb_refl, IH.
Qed.

Lemma jobsOf_schemaJobs_other env config m x :
  manifest_id m <> x -> jobsOf x (schemaJobs env config m) = [].
Proof.
  intros Hne. unfold jobsOf, schemaJobs.
  induction (glob env (schemaPattern config (manifest_id m))) as [|f fs IH];
    [done|].
  cbn [map List.filter schemaJob job_plugin].
  by rewrite (proj2 (String.eqb_neq _ _) Hne).
Qed.

(** The facts of the diamond, on a state that is written out: the counts
    and the registry by computation, the jobs of [A] by the jobs each
    schema stage started. *)
Ltac diamond_jobs :=
  cbn [detached emit push setInstance detach prepared instantiated finished
       initialState];
  rewrite ?jobsOf_app;
  rewrite ?jobsOf_schemaJobs_same by reflexivity;
  rewrite ?jobsOf_schemaJobs_other by (cbn; discriminate);
  rewrite <- ?app_assoc, ?app_nil_r; reflexivity.

Ltac diamond_fact :=
  first [ reflexivity
        | diamond_jobs
        | vm_compute; reflexivity
        | vm_compute; lia ].

(** The call stopped in state [s]: the facts hold there. *)
Ltac diamond_stopped P Hc Hr :=
  cbv beta iota; unfold P; cbn [fst snd]; rewrite ?Hc, ?Hr;
  split_and!; try diamond_fact; intros Hret; discriminate Hret.

(** At the rejection for a missing manifest, what the plugins loaded
    before it did is still there: the instance of [D0], and its schema
    job, which nobody awaits. *)
Lemma earlier_plugin_stays_loaded :
  let r := run missingAfterSchema "P" initialState in
  fst r = Throw (FrameworkError MANIFEST_NOT_FOUND
                   (moduleNotFound (manifestPath demoConfig "D1"))) /\
  instances (snd r) !! "D0" = Some (Instance "D0") /\
  detached (snd r) =
    [schemaJob missingAfterSchema (mkManifest "D0" []) schemaFileD0].
Proof. vm_compute. repeat split. Qed.

(** * The claims *)

(** ** C1: cycles *)




(** ** C2: a schema failure *)

(** C2. The code at the failing input: the activator of the only schema
    file of [X] fails, yet [loadPlugin(X)] returns, [X] is instantiated
    and stored in [PluginManager.instances] and its routes are mounted;
    the [SCHEMA_LOADER_FAILED] error is the rejection of a job nobody
    awaits. *)
Theorem C2_schema_failure_is_lost :
  let r := run schemaFailX "X" initialState in
  fst r = Return tt /\
  instances (snd r) !! "X" = Some (Instance "X") /\
  log (snd r) = [EvClaim "X"; EvManifest "X"; EvPrepare "X";
                 EvInstantiate "X"; EvRoutes "X"] /\
  detached (snd r) =
    [{| job_plugin := "X"; job_path := schemaFileX;
        job_rejection :=
          Some (FrameworkError SCHEMA_LOADER_FAILED "create failed") |}].
Proof. vm_compute. repeat split. Qed.

(** ** C3: what is and what is not done once *)

(** C3, as stated, fails: a second direct call for the same id claims it
    again and runs every stage again. *)
Lemma C3_second_call_repeats :
  let s1 := snd (run singleA "A" initialState) in
  let r2 := run singleA "A" s1 in
  fst r2 = Return tt /\
  _pluginsLoaded (snd r2) = ["A"; "A"] /\
  log (snd r2) =
    log s1 ++ [EvClaim "A"; EvManifest "A"; EvPrepare "A";
               EvInstantiate "A"; EvRoutes "A"].
Proof. vm_compute. repeat split. Qed.

(** C3, amended. The suppression sits in [loadDependencies]: a dependency
    whose id is in the array is passed over, with no effect at all; and a
    call for an id that is not yet in a duplicate-free array leaves the
    array duplicate-free, so within such a call each id is inserted at
    most once. *)
Theorem C3_dependencies_loaded_once (env : Env) (config : FrameworkConfig)
    (plugin : IPlugin) (manifest : Manifest) (deps : list IPlugin) (s : State) :
  dependencies (server manifest) = Some deps ->
  (forall d, d ∈ deps -> plugin_id d ∈ _pluginsLoaded s) ->
  NoDup (_pluginsLoaded s) ->
  plugin_id plugin ∉ _pluginsLoaded s ->
  loadDependencies (loadPlugin env config) manifest s = (Return tt, s) /\
  NoDup (_pluginsLoaded (snd (loadPlugin env config plugin s))).
Proof.
  intros Hdeps Hall Hn Hp. split.
  - unfold loadDependencies. rewrite Hdeps. by apply loop_skips.
  - by apply loadPlugin_NoDup.
Qed.

Lemma C3_dependencies_loaded_once_witness :
  let s := snd (run chainABC "B" initialState) in
  loadDependencies (loadPlugin chainABC demoConfig) (mkManifest "C" ["B"]) s
    = (Return tt, s) /\
  NoDup (_pluginsLoaded (snd (loadPlugin chainABC demoConfig (plugin "C") s))).
Proof.
  apply (C3_dependencies_loaded_once chainABC demoConfig (plugin "C")
           (mkManifest "C" ["B"]) [plugin "B"]).
  - reflexivity.
  - intros d Hd. apply list_elem_of_singleton in Hd as ->.
    vm_compute. apply list_elem_of_In. simpl. tauto.
  - vm_compute. apply NoDup_ListNoDup.
    repeat constructor; simpl; intuition congruence.
  - vm_compute. intros H. apply list_elem_of_In in H. simpl in H.
    intuition congruence.
Defined.

(** ** C4: the order of the stages *)




(** ** C5: a manifest that cannot be read *)

(** C5, as stated, fails: the error of a failed lookup is built from the
    code and from what the lookup threw, and names no plugin.  Two
    directories whose unreadable manifests belong to different
    dependencies reject with the same error. *)
Lemma C5_error_names_no_plugin :
  let r1 := run (brokenManifest "D1") "P" initialState in
  let r2 := run (brokenManifest "D2") "P" initialState in
  _pluginsLoaded (snd r1) = ["P"; "D1"] /\
  _pluginsLoaded (snd r2) = ["P"; "D2"] /\
  fst r1 = Throw (FrameworkError MANIFEST_NOT_FOUND "Unexpected token } in JSON") /\
  fst r2 = fst r1 /\
  ~ exists attribution : Completion unit -> string,
      attribution (fst r1) = "D1" /\ attribution (fst r2) = "D2".
Proof.
  vm_compute. repeat split. intros (f & H1 & H2). congruence.
Qed.

(** C5, amended. When a call claims a plugin [d] whose manifest cannot be
    read, it is rejected with a [FrameworkError] of code
    [MANIFEST_NOT_FOUND] whose [rootError] is what that lookup threw, and
    the claim of [d] is the last step of the call: no stage runs for [d]
    or for any plugin that would have been loaded after it.  [d] is the
    last id pushed; [PluginManager.instances] changed only at plugins
    instantiated before the claim, whose instances stay; every schema job
    the call started was started by a schema stage that ran before it. *)
Theorem C5_manifest_failure_is_fatal (env : Env) (config : FrameworkConfig)
    (plugin : IPlugin) (s : State) (d : string) (t : list Event) :
  (forall m, manifests env !! manifestPath config d <> Some (inr m)) ->
  log (snd (loadPlugin env config plugin s)) = log s ++ t ->
  EvClaim d ∈ t ->
  fst (loadPlugin env config plugin s) =
    Throw (FrameworkError MANIFEST_NOT_FOUND (lookupError env config d)) /\
  exists t0, t = t0 ++ [EvClaim d] /\
    _pluginsLoaded (snd (loadPlugin env config plugin s)) =
      _pluginsLoaded s ++ claimsOf t0 ++ [d] /\
    (forall k,
       (k ∉ instantiationsOf t0 ->
        instances (snd (loadPlugin env config plugin s)) !! k
          = instances s !! k) /\
       (k ∈ instantiationsOf t0 ->
        is_Some (instances (snd (loadPlugin env config plugin s)) !! k))) /\
    exists js,
      detached (snd (loadPlugin env config plugin s)) = detached s ++ js /\
      forall j, j ∈ js -> EvPrepare (job_plugin j) ∈ t0.
Proof.
  intros Hd Hlog Hin.
  destruct (loadPlugin_fuel_fatal env config d Hd (S (S (size (manifests env))))
              plugin s t Hlog Hin) as [Hthrow (t0 & ->)].
  split; [exact Hthrow|]. exists t0. split; [done|].
  pose proof (loadPlugin_framed env config plugin s _ Hlog) as Hframed.
  destruct (loadPlugin_jobsFrom env config plugin s _ Hlog) as (js & Hjs & Hall).
  apply loadPlugin_Load_log, Load_grows in Hlog as [_ Hp].
  split; [by rewrite Hp, claimsOf_app|]. split.
  - intros k. specialize (Hframed k).
    rewrite instantiationsOf_app in Hframed. cbn [instantiationsOf flat_map] in Hframed.
    by rewrite app_nil_r in Hframed.
  - exists js. split; [done|]. intros j Hj.
    destruct (proj1 (Forall_forall _ _) Hall j Hj) as [Hprep _].
    apply elem_of_app in Hprep as [Hprep|Hprep]; [done|].
    apply list_elem_of_singleton in Hprep. discriminate Hprep.
Qed.

Lemma C5_manifest_failure_is_fatal_witness :
  fst (loadPlugin missingAfterSchema demoConfig (plugin "P") initialState) =
    Throw (FrameworkError MANIFEST_NOT_FOUND
             (lookupError missingAfterSchema demoConfig "D1")) /\
  exists t0,
    [EvClaim "P"; EvManifest "P";
     EvClaim "D0"; EvManifest "D0";
     EvPrepare "D0"; EvInstantiate "D0"; EvRoutes "D0";
     EvClaim "D1"] = t0 ++ [EvClaim "D1"] /\
    _pluginsLoaded
      (snd (loadPlugin missingAfterSchema demoConfig (plugin "P") initialState)) =
      _pluginsLoaded initialState ++ claimsOf t0 ++ ["D1"] /\
    (forall k,
       (k ∉ instantiationsOf t0 ->
        instances
          (snd (loadPlugin missingAfterSchema demoConfig (plugin "P")
                  initialState)) !! k
          = instances initialState !! k) /\
       (k ∈ instantiationsOf t0 ->
        is_Some
          (instances
             (snd (loadPlugin missingAfterSchema demoConfig (plugin "P")
                     initialState)) !! k))) /\
    exists js,
      detached
        (snd (loadPlugin missingAfterSchema demoConfig (plugin "P")
                initialState)) = detached initialState ++ js /\
      forall j, j ∈ js -> EvPrepare (job_plugin j) ∈ t0.
Proof.
  apply (C5_manifest_failure_is_fatal missingAfterSchema demoConfig
           (plugin "P") initialState "D1").
  - intros m. vm_compute. discriminate.
  - vm_compute. reflexivity.
  - apply list_elem_of_In. simpl. tauto.
Defined.

(** ** C6: the diamond *)

(** C6. In a directory where [A] has no dependency, [B] and [C] depend on
    [A], and [D] depends on [B] and [C], a new loader's [loadPlugin(D)]
    loads [A] once, whatever the servers, routers and schema loaders do:
    [A] is claimed once, its manifest is read once, its schema stage is
    called once and the pending jobs of [A] are those of that one call;
    its constructor is called once, and when it returns the instance is
    the entry of [A] in [PluginManager.instances]; its routes are
    registered once when the constructor and the router work.  [A] is in
    the array when the loop of [C] reaches it.  When the call returns,
    the whole state is determined: the array, the four instances, the
    schema jobs of the four plugins, each once, and the log. *)
Theorem C6_diamond (env : Env) (config : FrameworkConfig) :
  manifests env !! manifestPath config "A" = Some (inr (mkManifest "A" [])) ->
  manifests env !! manifestPath config "B" = Some (inr (mkManifest "B" ["A"])) ->
  manifests env !! manifestPath config "C" = Some (inr (mkManifest "C" ["A"])) ->
  manifests env !! manifestPath config "D"
    = Some (inr (mkManifest "D" ["B"; "C"])) ->
  let r := loadPlugin env config (plugin "D") initialState in
  let mA := mkManifest "A" [] in
  occurrences (EvClaim "A") (log (snd r)) = 1 /\
  occurrences (EvManifest "A") (log (snd r)) = 1 /\
  occurrences (EvPrepare "A") (log (snd r)) = 1 /\
  occurrences (EvInstantiate "A") (log (snd r)) <= 1 /\
  occurrences (EvRoutes "A") (log (snd r)) <= 1 /\
  jobsOf "A" (detached (snd r)) = schemaJobs env config mA /\
  match constructed env config mA with
  | inl err =>
      fst r = Throw (FrameworkError PLUGIN_LOAD_FAILED err) /\
      instances (snd r) !! "A" = None /\
      occurrences (EvInstantiate "A") (log (snd r)) = 0 /\
      occurrences (EvRoutes "A") (log (snd r)) = 0
  | inr iA =>
      instances (snd r) !! "A" = Some iA /\
      occurrences (EvInstantiate "A") (log (snd r)) = 1 /\
      match routed env config mA with
      | Some err =>
          fst r = Throw (FrameworkError ROUTE_REGISTRY_FAILED err) /\
          occurrences (EvRoutes "A") (log (snd r)) = 0
      | None => occurrences (EvRoutes "A") (log (snd r)) = 1
      end
  end /\
  (fst r = Return tt ->
   exists iA iB iC iD,
     constructed env config (mkManifest "A" []) = inr iA /\
     constructed env config (mkManifest "B" ["A"]) = inr iB /\
     constructed env config (mkManifest "C" ["A"]) = inr iC /\
     constructed env config (mkManifest "D" ["B"; "C"]) = inr iD /\
     _pluginsLoaded (snd r) = ["D"; "B"; "A"; "C"] /\
     instances (snd r) =
       <["D" := iD]> (<["C" := iC]> (<["B" := iB]> (<["A" := iA]> ∅))) /\
     detached (snd r) =
       schemaJobs env config (mkManifest "A" []) ++
       schemaJobs env config (mkManifest "B" ["A"]) ++
       schemaJobs env config (mkManifest "C" ["A"]) ++
       schemaJobs env config (mkManifest "D" ["B"; "C"]) /\
     log (snd r) =
       [EvClaim "D"; EvManifest "D";
        EvClaim "B"; EvManifest "B";
        EvClaim "A"; EvManifest "A";
        EvPrepare "A"; EvInstantiate "A"; EvRoutes "A";
        EvPrepare "B"; EvInstantiate "B"; EvRoutes "B";
        EvClaim "C"; EvManifest "C";
        EvPrepare "C"; EvInstantiate "C"; EvRoutes "C";
        EvPrepare "D"; EvInstantiate "D"; EvRoutes "D"]).
Proof.
  intros HA HB HC HD r mA. subst mA. pattern r.
  match goal with |- ?Q r => set (P := Q) end. subst r.
  rewrite (loadPlugin_found env config "D" _ _ HD).
  unfold loadDependencies. cbn [dependencies server mkManifest map].
  rewrite loop_cons_new by array_out.
  rewrite (loadPlugin_found env config "B" _ _ HB).
  unfold loadDependencies. cbn [dependencies server mkManifest map].
  rewrite loop_cons_new by array_out.
  rewrite (loadPlugin_found env config "A" _ _ HA).
  unfold loadDependencies. cbn [dependencies server mkManifest map].
  rewrite loop_nil.
  (* the stages of A *)
  match goal with |- context [ownStages env config ?m ?s] =>
    pattern (ownStages env config m s); apply ownStages_outcome
  end; [intros errA HcA; diamond_stopped P HcA HcA
       |intros iA errA HcA HrA; diamond_stopped P HcA HrA
       |intros iA HcA HrA].
  rewrite loop_nil.
  (* the stages of B *)
  match goal with |- context [ownStages env config ?m ?s] =>
    pattern (ownStages env config m s); apply ownStages_outcome
  end; [intros errB HcB; diamond_stopped P HcA HrA
       |intros iB errB HcB HrB; diamond_stopped P HcA HrA
       |intros iB HcB HrB].
  rewrite loop_cons_new by array_out.
  rewrite (loadPlugin_found env config "C" _ _ HC).
  unfold loadDependencies. cbn [dependencies server mkManifest map].
  rewrite loop_cons_old by array_in. rewrite loop_nil.
  (* the stages of C *)
  match goal with |- context [ownStages env config ?m ?s] =>
    pattern (ownStages env config m s); apply ownStages_outcome
  end; [intros errC HcC; diamond_stopped P HcA HrA
       |intros iC errC HcC HrC; diamond_stopped P HcA HrA
       |intros iC HcC HrC].
  rewrite loop_nil.
  (* the stages of D *)
  match goal with |- context [ownStages env config ?m ?s] =>
    pattern (ownStages env config m s); apply ownStages_outcome
  end; [intros errD HcD; diamond_stopped P HcA HrA
       |intros iD errD HcD HrD; diamond_stopped P HcA HrA
       |intros iD HcD HrD].
  unfold P. cbn [fst snd]. rewrite HcA, HrA.
  split_and!; try diamond_fact.
  intros _. exists iA, iB, iC, iD. split_and!; try done; diamond_fact.
Qed.

Lemma C6_diamond_witness :
  let r := loadPlugin diamondABCD demoConfig (plugin "D") initialState in
  let mA := mkManifest "A" [] in
  occurrences (EvClaim "A") (log (snd r)) = 1 /\
  occurrences (EvManifest "A") (log (snd r)) = 1 /\
  occurrences (EvPrepare "A") (log (snd r)) = 1 /\
  occurrences (EvInstantiate "A") (log (snd r)) <= 1 /\
  occurrences (EvRoutes "A") (log (snd r)) <= 1 /\
  jobsOf "A" (detached (snd r)) = schemaJobs diamondABCD demoConfig mA /\
  match constructed diamondABCD demoConfig mA with
  | inl err =>
      fst r = Throw (FrameworkError PLUGIN_LOAD_FAILED err) /\
      instances (snd r) !! "A" = None /\
      occurrences (EvInstantiate "A") (log (snd r)) = 0 /\
      occurrences (EvRoutes "A") (log (snd r)) = 0
  | inr iA =>
      instances (snd r) !! "A" = Some iA /\
      occurrences (EvInstantiate "A") (log (snd r)) = 1 /\
      match routed diamondABCD demoConfig mA with
      | Some err =>
          fst r = Throw (FrameworkError ROUTE_REGISTRY_FAILED err) /\
          occurrences (EvRoutes "A") (log (snd r)) = 0
      | None => occurrences (EvRoutes "A") (log (snd r)) = 1
      end
  end /\
  (fst r = Return tt ->
   exists iA iB iC iD,
     constructed diamondABCD demoConfig (mkManifest "A" []) = inr iA /\
     constructed diamondABCD demoConfig (mkManifest "B" ["A"]) = inr iB /\
     constructed diamondABCD demoConfig (mkManifest "C" ["A"]) = inr iC /\
     constructed diamondABCD demoConfig (mkManifest "D" ["B"; "C"]) = inr iD /\
     _pluginsLoaded (snd r) = ["D"; "B"; "A"; "C"] /\
     instances (snd r) =
       <["D" := iD]> (<["C" := iC]> (<["B" := iB]> (<["A" := iA]> ∅))) /\
     detached (snd r) =
       schemaJobs diamondABCD demoConfig (mkManifest "A" []) ++
       schemaJobs diamondABCD demoConfig (mkManifest "B" ["A"]) ++
       schemaJobs diamondABCD demoConfig (mkManifest "C" ["A"]) ++
       schemaJobs diamondABCD demoConfig (mkManifest "D" ["B"; "C"]) /\
     log (snd r) =
       [EvClaim "D"; EvManifest "D";
        EvClaim "B"; EvManifest "B";
        EvClaim "A"; EvManifest "A";
        EvPrepare "A"; EvInstantiate "A"; EvRoutes "A";
        EvPrepare "B"; EvInstantiate "B"; EvRoutes "B";
        EvClaim "C"; EvManifest "C";
        EvPrepare "C"; EvInstantiate "C"; EvRoutes "C";
        EvPrepare "D"; EvInstantiate "D"; EvRoutes "D"]).
Proof.
  apply (C6_diamond diamondABCD demoConfig); reflexivity.
Defined.

(** ** C7: the linear chain *)

(** C7. In a directory where [A] has no dependency, [B] depends on [A],
    [C] depends on [B], and the three plugins construct and mount, a new
    loader's [loadPlugin(C)] returns; afterwards [PluginManager.instances]
    holds exactly the instances of [A], [B] and [C], assigned in that
    order. *)
Theorem C7_linear_chain (env : Env) (config : FrameworkConfig)
    (iA iB iC : PluginInstance) :
  healthy env config (mkManifest "A" []) iA ->
  healthy env config (mkManifest "B" ["A"]) iB ->
  healthy env config (mkManifest "C" ["B"]) iC ->
  let r := loadPlugin env config (plugin "C") initialState in
  fst r = Return tt /\
  instances (snd r) !! "A" = Some iA /\
  instances (snd r) !! "B" = Some iB /\
  instances (snd r) !! "C" = Some iC /\
  dom (instances (snd r)) = ({["A"; "B"; "C"]} : gset string) /\
  instantiationsOf (log (snd r)) = ["A"; "B"; "C"].
Proof.
  intros HA HB HC r. subst r.
  rewrite (loadPlugin_healthy env config "C" _ _ _ _ HC eq_refl eq_refl).
  cbn [map]. rewrite loop_cons_new by array_out.
  rewrite (loadPlugin_healthy env config "B" _ _ _ _ HB eq_refl eq_refl).
  cbn [map]. rewrite loop_cons_new by array_out.
  rewrite (loadPlugin_healthy env config "A" _ _ _ _ HA eq_refl eq_refl).
  cbn [map]. rewrite !loop_nil. cbn [fst snd].
  split; [reflexivity|].
  cbn [finished instantiated prepared instances setInstance emit detach
       push initialState manifest_id mkManifest].
  split; [by simplify_map_eq|].
  split; [by simplify_map_eq|].
  split; [by simplify_map_eq|].
  split; [|reflexivity].
  rewrite !dom_insert_L, dom_empty_L. set_solver.
Qed.

Lemma C7_linear_chain_witness :
  let r := loadPlugin chainABC demoConfig (plugin "C") initialState in
  fst r = Return tt /\
  instances (snd r) !! "A" = Some (Instance "A") /\
  instances (snd r) !! "B" = Some (Instance "B") /\
  instances (snd r) !! "C" = Some (Instance "C") /\
  dom (instances (snd r)) = ({["A"; "B"; "C"]} : gset string) /\
  instantiationsOf (log (snd r)) = ["A"; "B"; "C"].
Proof.
  apply (C7_linear_chain chainABC demoConfig
           (Instance "A") (Instance "B") (Instance "C"));
    repeat split; reflexivity.
Defined.

(** ** C8: claims persist *)

(** C8. Whatever the outcome of a call (it returns, or it throws at the
    manifest, the schema, the instantiation or the routes of any plugin
    of the chain), the array it leaves is the array it found with the
    claims of the call appended, the requested id first: nothing is ever
    removed, so the ids claimed before and the ids claimed by the call,
    failed or not, are all there for a later call to find. *)
Theorem C8_claims_persist (env : Env) (config : FrameworkConfig)
    (plugin : IPlugin) (s : State) :
  exists t,
    log (snd (loadPlugin env config plugin s)) =
      log s ++ EvClaim (plugin_id plugin) :: t /\
    _pluginsLoaded (snd (loadPlugin env config plugin s)) =
      _pluginsLoaded s ++ plugin_id plugin :: claimsOf t /\
    forall x,
      x ∈ _pluginsLoaded s \/ EvClaim x ∈ EvClaim (plugin_id plugin) :: t ->
      x ∈ _pluginsLoaded (snd (loadPlugin env config plugin s)).
Proof.
  destruct (loadPlugin_claims env config plugin s) as (t & _ & Hl & Hp).
  exists t. split; [exact Hl|]. split; [exact Hp|].
  intros x Hx. rewrite Hp. apply elem_of_app.
  destruct Hx as [Hx|Hx]; [by left|]. right. by apply elem_claimsOf in Hx.
Qed.

(** ** C9: the configuration is captured by value *)

(** C9. The loader keeps a deep copy of the configuration it is
    constructed with: however the caller goes on writing to its own
    objects (the one it passed, those reachable from it, those it makes
    later), the configuration the loader reads stays the plain value the
    caller's object had at construction, and every later [loadPlugin]
    call gives the same outcome and state in both runs. *)
Theorem C9_config_captured_by_value (h : Heap) (config : JsVal)
    (h1 : Heap) (loader : PluginLoader) (ms ms' : list Mutation) :
  construct h config = Some (h1, loader) ->
  Forall (ownWrite (length h) (length h1)) ms ->
  Forall (ownWrite (length h) (length h1)) ms' ->
  getConfig (mutateAll ms h1) loader = readDeep (S (length h)) h config /\
  is_Some (getConfig (mutateAll ms h1) loader) /\
  forall env plugin s,
    PluginLoader_loadPlugin env (mutateAll ms h1) loader plugin s =
    PluginLoader_loadPlugin env (mutateAll ms' h1) loader plugin s.
Proof.
  intros Hc Hms Hms'.
  destruct (construct_snapshot _ _ _ _ Hc) as (j & Hj & Hlen & Hget).
  destruct (mutateAll_agree _ _ ms h1 Hms (Nat.le_refl _)) as [Ha Hl].
  destruct (mutateAll_agree _ _ ms' h1 Hms' (Nat.le_refl _)) as [Ha' Hl'].
  pose proof (Hget _ Ha Hl) as Hg. pose proof (Hget _ Ha' Hl') as Hg'.
  split; [by rewrite Hg, Hj|]. split; [by rewrite Hg|].
  intros env plugin s. unfold PluginLoader_loadPlugin. by rewrite Hg, Hg'.
Qed.

Lemma C9_config_captured_by_value_witness :
  getConfig (mutateAll callerWrites loaderHeap) {| _config := VRef 3 |} =
    readDeep (S (length callerHeap)) callerHeap callerConfig /\
  is_Some (getConfig (mutateAll callerWrites loaderHeap) {| _config := VRef 3 |}) /\
  forall env plugin s,
    PluginLoader_loadPlugin env (mutateAll callerWrites loaderHeap)
      {| _config := VRef 3 |} plugin s =
    PluginLoader_loadPlugin env (mutateAll [] loaderHeap)
      {| _config := VRef 3 |} plugin s.
Proof.
  apply (C9_config_captured_by_value callerHeap callerConfig loaderHeap
           {| _config := VRef 3 |} callerWrites []).
  - reflexivity.
  - repeat constructor; simpl; lia.
  - constructor.
Defined.

(** ** C10: the guard of step 3 *)

(** C10. The guard compares a string with [undefined] and holds for every
    manifest, so [loadDependencies] is always called; when the manifest
    has no [dependencies], the call is rejected with the [TypeError] of
    the iteration, not wrapped in a [FrameworkError], right after the
    manifest was read: no later stage runs. *)
Theorem C10_guard_always_true (env : Env) (config : FrameworkConfig)
    (plugin : IPlugin) (manifest : Manifest) (s : State) :
  manifests env !! manifestPath config (plugin_id plugin) = Some (inr manifest) ->
  dependencies (server manifest) = None ->
  (forall m : Manifest, dependenciesGuard m = true) /\
  loadPlugin env config plugin s =
    (Throw (TypeError "manifest.server.dependencies is not iterable"),
     emit (EvManifest (plugin_id plugin)) (push (plugin_id plugin) s)).
Proof.
  intros Hm Hd. split; [apply dependenciesGuard_true|].
  rewrite loadPlugin_unfold, loadPlugin_body_eq.
  unfold getManifest. simpl. rewrite Hm.
  unfold await, effect, ret. cbn [fst snd].
  unfold loadDependencies. by rewrite Hd.
Qed.

Lemma C10_guard_always_true_witness :
  (forall m : Manifest, dependenciesGuard m = true) /\
  loadPlugin undeclared demoConfig (plugin "U") initialState =
    (Throw (TypeError "manifest.server.dependencies is not iterable"),
     emit (EvManifest "U") (push "U" initialState)).
Proof.
  apply (C10_guard_always_true undeclared demoConfig (plugin "U")
           (manifestWithoutDependencies "U") initialState); reflexivity.
Defined.

(** * Further properties of the loader *)

(** ** [PluginManager.instances] *)

(** The registry changes where the call instantiates, and nowhere else.
    Whatever the outcome of [loadPlugin], an id under which the call
    assigned no instance keeps the entry it had (or stays without), and an
    id under which it assigned one has an entry: the loader never deletes
    an instance. *)
Theorem instances_change_only_where_instantiated (env : Env)
    (config : FrameworkConfig) (plugin : IPlugin) (s : State) :
  exists t,
    log (snd (loadPlugin env config plugin s)) = log s ++ t /\
    forall k,
      (k ∉ instantiationsOf t ->
       instances (snd (loadPlugin env config plugin s)) !! k
         = instances s !! k) /\
      (k ∈ instantiationsOf t ->
       is_Some (instances (snd (loadPlugin env config plugin s)) !! k)).
Proof.
  apply (loadPlugin_compositional env config framed).
  - apply framed_refl.
  - apply framed_trans.
  - intros p s0. by apply framed_quiet.
  - intros p s0. by apply framed_quiet.
  - intros m s0. by apply framed_quiet.
  - intros m i s0. by apply (framed_set m i).
  - intros m i s0. by apply (framed_set m i).
Qed.

(** ** The jobs nobody awaits *)

(** Schema jobs are started by the schema stage only, and fail in one way
    only.  Whatever the outcome of [loadPlugin], the jobs it leaves
    behind are those that were there followed by jobs for plugins whose
    schema stage the call ran, each for a file [glob] found under the
    pattern of that plugin, and each either fulfilled or rejected with a
    [FrameworkError] of code [SCHEMA_LOADER_FAILED]. *)
Theorem schema_jobs_come_from_the_schema_stage (env : Env)
    (config : FrameworkConfig) (plugin : IPlugin) (s : State) :
  exists t js,
    log (snd (loadPlugin env config plugin s)) = log s ++ t /\
    detached (snd (loadPlugin env config plugin s)) = detached s ++ js /\
    forall j, j ∈ js ->
      EvPrepare (job_plugin j) ∈ t /\
      job_path j ∈ glob env (schemaPattern config (job_plugin j)) /\
      (job_rejection j = None \/
       exists err,
         job_rejection j = Some (FrameworkError SCHEMA_LOADER_FAILED err)).
Proof.
  destruct (loadPlugin_compositional env config (jobsFrom env config))
    with (p := plugin) (s := s) as (t & Hl & js & Hd & Hjs).
  - apply jobsFrom_refl.
  - apply jobsFrom_trans.
  - intros p s0. by apply jobsFrom_quiet.
  - intros p s0. by apply jobsFrom_quiet.
  - intros m s0. apply (jobsFrom_prepare env config m); [done|left].
  - intros m i s0. apply (jobsFrom_prepare env config m); [done|left].
  - intros m i s0. apply (jobsFrom_prepare env config m); [done|left].
  - exists t, js. split; [done|]. split; [done|].
    intros j Hj. by apply (proj1 (Forall_forall _ _) Hjs).
Qed.

(** ** No stage runs ahead of the one before *)

Lemma occurrences_app e (t u : list Event) :
  occurrences e (t ++ u) = occurrences e t + occurrences e u.
Proof. apply count_occ_app. Qed.

Lemma stagesInOrder_app t1 t2 :
  stagesInOrder t1 -> stagesInOrder t2 -> stagesInOrder (t1 ++ t2).
Proof.
  intros H1 H2 u v x Heq. symmetry in Heq.
  apply app_eq_app in Heq as [w [[-> ->]|[-> ->]]].
  - rewrite !occurrences_app.
    destruct (H1 t1 [] x) as (? & ? & ?); [by rewrite app_nil_r|].
    destruct (H2 w v x) as (? & ? & ?); [done|]. lia.
  - by apply (H1 u w x).
Qed.

Lemma stagesInOrder_nil : stagesInOrder [].
Proof. intros [|? ?] v x Heq; [|discriminate Heq]. simpl. lia. Qed.

Lemma stagesInOrder_claim p : stagesInOrder [EvClaim p].
Proof.
  intros [|a [|b u]] v x Heq; try discriminate Heq.
  - simpl. lia.
  - injection Heq as <- _. count_events.
Qed.

Lemma stagesInOrder_manifest p : stagesInOrder [EvClaim p; EvManifest p].
Proof.
  intros [|a [|b [|c u]]] v x Heq; try discriminate Heq.
  - simpl. lia.
  - injection Heq as <- _. count_events.
  - injection Heq as <- <- _. count_events.
Qed.

Lemma stagesInOrder_stages k :
  stagesInOrder [EvPrepare k; EvInstantiate k; EvRoutes k].
Proof.
  intros [|a [|b [|c [|d u]]]] v x Heq; try discriminate Heq.
  - simpl. lia.
  - injection Heq as <- _. count_events.
  - injection Heq as <- <- _. count_events.
  - injection Heq as <- <- <- _. count_events.
Qed.

(** A beginning of a log in order is in order. *)
Lemma stagesInOrder_prefix t1 t2 : stagesInOrder (t1 ++ t2) -> stagesInOrder t1.
Proof.
  intros H u v x ->. apply (H u (v ++ t2) x). by rewrite app_assoc.
Qed.

(** The stages of a plugin come in order.  Whatever the outcome of
    [loadPlugin], at every moment of what the call logs, every id has at
    most as many route registrations as instantiations, as many
    instantiations as schema stage calls, and as many manifests read as
    claims: no [instantiatePlugin] without the [preparePlugin] before it,
    no [registerRoutes] without the [instantiatePlugin] before it. *)
Theorem stages_never_run_ahead (env : Env) (config : FrameworkConfig)
    (plugin : IPlugin) (s : State) :
  exists t,
    log (snd (loadPlugin env config plugin s)) = log s ++ t /\
    forall u v x, t = u ++ v ->
      occurrences (EvRoutes x) u <= occurrences (EvInstantiate x) u /\
      occurrences (EvInstantiate x) u <= occurrences (EvPrepare x) u /\
      occurrences (EvManifest x) u <= occurrences (EvClaim x) u.
Proof.
  apply (loadPlugin_compositional env config (fun _ _ t => stagesInOrder t)).
  - intros _. apply stagesInOrder_nil.
  - intros _ _ _ t u. apply stagesInOrder_app.
  - intros p _. apply stagesInOrder_claim.
  - intros p _. apply stagesInOrder_manifest.
  - intros m _.
    apply (stagesInOrder_prefix _ [EvInstantiate (manifest_id m);
                                   EvRoutes (manifest_id m)]).
    apply stagesInOrder_stages.
  - intros m i _.
    apply (stagesInOrder_prefix _ [EvRoutes (manifest_id m)]).
    apply stagesInOrder_stages.
  - intros m i _. apply stagesInOrder_stages.
Qed.

(** ** Failures *)

Section Failures.
Context (env : Env) (config : FrameworkConfig).

Lemma stopsAt_app x e s' u t :
  stopsAt env config x e s' t -> stopsAt env config x e s' (u ++ t).
Proof.
  unfold stopsAt.
  destruct (manifests env !! manifestPath config x) as [[err|m]|].
  - intros (He & t0 & ->). split; [done|]. exists (u ++ t0). by rewrite app_assoc.
  - intros [(Hd & He & t0 & ->)|[(err & Hc & He & (t0 & ->) & Hjs)|
                                 (i & err & Hc & Hr & He & (t0 & ->) & Hjs & Hi)]].
    + left. repeat split; try done. exists (u ++ t0). by rewrite app_assoc.
    + right. left. exists err. repeat split; try done.
      exists (u ++ t0). by rewrite app_assoc.
    + right. right. exists i, err. repeat split; try done.
      exists (u ++ t0). by rewrite app_assoc.
  - intros (He & t0 & ->). split; [done|]. exists (u ++ t0). by rewrite app_assoc.
Qed.

Lemma stopsAt_cons x e s' a t :
  stopsAt env config x e s' t -> stopsAt env config x e s' (a :: t).
Proof. apply (stopsAt_app x e s' [a]). Qed.

Lemma Load_stops_mutual :
  (forall p s c s' t, Load env config p s c s' t ->
     forall e, c = Throw e ->
     exists x, EvClaim x ∈ t /\ stopsAt env config x e s' t) /\
  (forall ds s c s' t, LoadDeps env config ds s c s' t ->
     forall e, c = Throw e ->
     exists x, EvClaim x ∈ t /\ stopsAt env config x e s' t).
Proof.
  apply Load_mutual.
  - intros p s Hm e [= <-]. exists (plugin_id p). split; [left|].
    unfold stopsAt.
    destruct (manifests env !! manifestPath config (plugin_id p))
      as [[err|m]|] eqn:E; try (split; [done | by exists []]).
    by destruct (Hm m).
  - intros p s m Hm Hd e [= <-]. exists (plugin_id p). split; [left|].
    unfold stopsAt. rewrite Hm. left. repeat split; try done. by exists [].
  - intros p s m deps e s2 t Hm Hd _ IH e' [= <-].
    destruct (IH e eq_refl) as (x & Hin & Hx). exists x. split.
    + right. by right.
    + by do 2 apply stopsAt_cons.
  - intros p s m deps s2 t err Hm Hd _ _ Hc e [= <-].
    exists (plugin_id p). split; [left|].
    unfold stopsAt. rewrite Hm. right. left. exists err.
    split; [done|]. split; [done|]. split.
    + by exists (EvClaim (plugin_id p) :: EvManifest (plugin_id p) :: t).
    + by exists (detached s2).
  - intros p s m deps s2 t i err Hm Hd _ _ Hc Hr e [= <-].
    exists (plugin_id p). split; [left|].
    unfold stopsAt. rewrite Hm. right. right. exists i, err.
    split; [done|]. split; [done|]. split; [done|]. split; [|split].
    + by exists (EvClaim (plugin_id p) :: EvManifest (plugin_id p) :: t).
    + by exists (detached s2).
    + simpl. by rewrite lookup_insert_eq.
  - intros p s m deps s2 t i _ _ _ _ _ _ e He. discriminate He.
  - intros s e He. discriminate He.
  - intros d rest s c s' t _ _ IH e He. by apply IH.
  - intros d rest s e s1 t _ _ IH e' He. by apply IH.
  - intros d rest s s1 t1 c s2 t2 _ _ _ _ IH e He.
    destruct (IH e He) as (x & Hin & Hx). exists x. split.
    + apply elem_of_app. by right.
    + by apply stopsAt_app.
Qed.

End Failures.

(** Every failure is the failure of one stage of one claimed plugin, and
    the loader starts nothing after it.  When [loadPlugin] rejects with
    [e], the call claimed a plugin [x] such that [e] is what one stage of
    [x] throws: [MANIFEST_NOT_FOUND] with what the lookup threw when the
    manifest of [x] cannot be read; the [TypeError] of the iteration when
    it declares no dependencies; [PLUGIN_LOAD_FAILED] with what the
    constructor threw; [ROUTE_REGISTRY_FAILED] with what the router
    threw.  What the call logged ends with the last step of [x] before
    that stage: no enclosing call and no later dependency took a step
    more.  What [x] did before stays as it is: when the constructor or
    the router throws, the schema jobs of [x] are the last ones started,
    and nobody awaits them; when the router throws, the instance of [x]
    is in [PluginManager.instances]. *)
Theorem failure_stops_the_call (env : Env) (config : FrameworkConfig)
    (plugin : IPlugin) (s : State) (e : Thrown) (t : list Event) :
  fst (loadPlugin env config plugin s) = Throw e ->
  log (snd (loadPlugin env config plugin s)) = log s ++ t ->
  exists x, EvClaim x ∈ t /\
            stopsAt env config x e (snd (loadPlugin env config plugin s)) t.
Proof.
  intros He Hlog. apply loadPlugin_Load_log in Hlog.
  by apply (proj1 (Load_stops_mutual env config) _ _ _ _ _ Hlog).
Qed.

Lemma failure_stops_the_call_witness :
  exists x,
    EvClaim x ∈ [EvClaim "P"; EvManifest "P"; EvPrepare "P"] /\
    stopsAt constructorFailsAfterSchema demoConfig x
      (FrameworkError PLUGIN_LOAD_FAILED "constructor failed")
      (snd (loadPlugin constructorFailsAfterSchema demoConfig (plugin "P")
              initialState))
      [EvClaim "P"; EvManifest "P"; EvPrepare "P"].
Proof.
  apply (failure_stops_the_call constructorFailsAfterSchema demoConfig
           (plugin "P") initialState).
  - vm_compute. reflexivity.
  - vm_compute. reflexivity.
Defined.

(** [loadPlugin] never rejects with a schema error: no run of it, in any
    directory and from any state, throws a [FrameworkError] of code
    [SCHEMA_LOADER_FAILED], whatever the schema loaders do. *)
Theorem loadPlugin_never_throws_schema_error (env : Env)
    (config : FrameworkConfig) (plugin : IPlugin) (s : State)
    (rootError : RootError) :
  fst (loadPlugin env config plugin s)
    <> Throw (FrameworkError SCHEMA_LOADER_FAILED rootError).
Proof.
  intros He. destruct (loadPlugin_Load env config plugin s) as (t & Ht & _).
  destruct (proj1 (Load_stops_mutual env config) _ _ _ _ _ Ht _ He)
    as (x & _ & Hx).
  unfold stopsAt, notIterable in Hx.
  destruct (manifests env !! manifestPath config x) as [[err|m]|].
  - by destruct Hx as [[=] _].
  - destruct Hx as [(_ & [=] & _)|[(err & _ & [=] & _)|
                                   (i & err & _ & _ & [=] & _)]].
  - by destruct Hx as [[=] _].
Qed.

(** ** When a load succeeds *)

Section Success.
Context (env : Env) (config : FrameworkConfig).

Lemma inOrder_lookup path r :
  inOrder env config = true -> manifests env !! path = Some r ->
  moduleInOrder env config r = true.
Proof.
  unfold inOrder. intros Hall Hr.
  apply (proj1 (forallb_forall _ _) Hall (path, r)).
  apply list_elem_of_In. by apply elem_of_map_to_list.
Qed.

Lemma readable_manifest x :
  readable env config x = true ->
  exists m, manifests env !! manifestPath config x = Some (inr m).
Proof.
  unfold readable.
  destruct (manifests env !! manifestPath config x) as [[err|m]|];
    try discriminate. by exists m.
Qed.

Lemma Load_inOrder_mutual :
  inOrder env config = true ->
  (forall p s c s' t, Load env config p s c s' t ->
     readable env config (plugin_id p) = true -> c = Return tt) /\
  (forall ds s c s' t, LoadDeps env config ds s c s' t ->
     (forall d, d ∈ ds -> readable env config (plugin_id d) = true) ->
     c = Return tt).
Proof.
  intros Hall.
  assert (forall x m, manifests env !! manifestPath config x = Some (inr m) ->
            exists deps i,
              dependencies (server m) = Some deps /\
              (forall d, d ∈ deps -> readable env config (plugin_id d) = true) /\
              constructed env config m = inr i /\
              routed env config m = None) as Hok.
  { intros x m Hm. pose proof (inOrder_lookup _ _ Hall Hm) as H.
    unfold moduleInOrder in H.
    destruct (dependencies (server m)) as [deps|]; [|discriminate H].
    destruct (constructed env config m) as [err|i];
      [by rewrite andb_false_r in H|].
    destruct (routed env config m); [by rewrite andb_false_r in H|].
    rewrite !andb_true_r in H. exists deps, i. repeat split; try done.
    intros d Hd. apply (proj1 (forallb_forall _ _) H).
    by apply list_elem_of_In. }
  apply Load_mutual.
  - intros p s Hm Hr. apply readable_manifest in Hr as [m Hr].
    by destruct (Hm m).
  - intros p s m Hm Hd _.
    destruct (Hok _ _ Hm) as (deps & i & Hd' & _). congruence.
  - intros p s m deps e s2 t Hm Hd _ IH _.
    destruct (Hok _ _ Hm) as (deps' & i & Hd' & Hr & _).
    assert (deps' = deps) as -> by congruence. by apply IH.
  - intros p s m deps s2 t err Hm _ _ _ Hc _.
    destruct (Hok _ _ Hm) as (deps' & i & _ & _ & Hc' & _). congruence.
  - intros p s m deps s2 t i err Hm _ _ _ _ Hr _.
    destruct (Hok _ _ Hm) as (deps' & i' & _ & _ & _ & Hr'). congruence.
  - done.
  - done.
  - intros d rest s c s' t _ _ IH Hrest. apply IH.
    intros d' Hd'. apply Hrest. by right.
  - intros d rest s e s1 t _ _ IH Hrest. apply IH, Hrest. left.
  - intros d rest s s1 t1 c s2 t2 _ _ _ _ IH Hrest. apply IH.
    intros d' Hd'. apply Hrest. by right.
Qed.

End Success.

(** In a directory in order every load succeeds.  When every manifest
    module of the directory gives a manifest that declares its
    dependencies, all of them with a manifest of their own, and whose
    server constructs and whose router mounts, [loadPlugin] returns for
    every plugin of the directory, from every state: whatever was claimed
    or instantiated before, cycles included. *)
Theorem load_succeeds_in_a_directory_in_order (env : Env)
    (config : FrameworkConfig) (plugin : IPlugin) (s : State) :
  inOrder env config = true ->
  readable env config (plugin_id plugin) = true ->
  fst (loadPlugin env config plugin s) = Return tt.
Proof.
  intros Hall Hr. destruct (loadPlugin_Load env config plugin s) as (t & Ht & _).
  by apply (proj1 (Load_inOrder_mutual env config Hall) _ _ _ _ _ Ht).
Qed.

Lemma load_succeeds_in_a_directory_in_order_witness :
  fst (loadPlugin cycleAB demoConfig (plugin "A")
         (snd (run cycleAB "B" initialState))) = Return tt.
Proof.
  apply (load_succeeds_in_a_directory_in_order cycleAB demoConfig (plugin "A")).
  - vm_compute. reflexivity.
  - vm_compute. reflexivity.
Defined.

Section Return.
Context (env : Env) (config : FrameworkConfig).

Lemma Load_framed_mutual :
  (forall p s c s' t, Load env config p s c s' t -> framed s s' t) /\
  (forall ds s c s' t, LoadDeps env config ds s c s' t -> framed s s' t).
Proof.
  apply Load_compositional.
  - apply framed_refl.
  - apply framed_trans.
  - intros p s0. by apply framed_quiet.
  - intros p s0. by apply framed_quiet.
  - intros m s0. by apply framed_quiet.
  - intros m i s0. by apply (framed_set m i).
  - intros m i s0. by apply (framed_set m i).
Qed.

Lemma framed_is_Some s s' t k :
  framed s s' t -> is_Some (instances s !! k) -> is_Some (instances s' !! k).
Proof.
  intros H Hk. destruct (H k) as [Hout Hin].
  destruct (decide (k ∈ instantiationsOf t)); [by apply Hin|].
  by rewrite Hout.
Qed.

Lemma Load_claim_first p s c s' t :
  Load env config p s c s' t -> exists t', t = EvClaim (plugin_id p) :: t'.
Proof. destruct 1; by eexists. Qed.

Lemma Load_claimed p s c s' t :
  Load env config p s c s' t -> plugin_id p ∈ _pluginsLoaded s'.
Proof.
  intros H. destruct (Load_claim_first _ _ _ _ _ H) as [t' ->].
  apply Load_grows in H as [_ ->]. simpl. apply elem_of_app. right. left.
Qed.

Lemma loadedThrough_mono s1 s2 t1 t' u x :
  loadedThrough env config s1 t1 x ->
  grows s1 s2 u -> framed s1 s2 u ->
  (forall e, e ∈ t1 -> e ∈ t') ->
  loadedThrough env config s2 t' x.
Proof.
  intros (m & deps & i & Hm & Hd & Hdeps & Hc & Hr & Hroutes & Hi) Hg Hf Hsub.
  exists m, deps, i. repeat split; try done.
  - intros d Hin. eapply grows_elem; [exact Hg|]. by apply Hdeps.
  - by apply Hsub.
  - by eapply framed_is_Some.
Qed.

Lemma Load_through_mutual :
  (forall p s c s' t, Load env config p s c s' t -> c = Return tt ->
     forall x, EvClaim x ∈ t -> loadedThrough env config s' t x) /\
  (forall ds s c s' t, LoadDeps env config ds s c s' t -> c = Return tt ->
     (forall x, EvClaim x ∈ t -> loadedThrough env config s' t x) /\
     (forall d, d ∈ ds -> plugin_id d ∈ _pluginsLoaded s')).
Proof.
  apply Load_mutual; try (intros; discriminate).
  - (* everything is done *)
    intros p s m deps s2 t i Hm Hd Hdeps IH Hc Hr _ x Hx.
    destruct (IH eq_refl) as [IHt IHd].
    apply elem_of_cons in Hx as [Hx|Hx].
    { injection Hx as ->. exists m, deps, i. repeat split; try done.
      - right. right. apply elem_of_app. right. right. right. left.
      - simpl. rewrite lookup_insert_eq. by eexists. }
    apply elem_of_cons in Hx as [Hx|Hx]; [discriminate Hx|].
    apply elem_of_app in Hx as [Hx|Hx].
    + eapply loadedThrough_mono; [by apply IHt| | |].
      * apply (grows_finished env config m i).
      * by apply (framed_set m i).
      * intros e He. right. right. apply elem_of_app. by left.
    + repeat (apply elem_of_cons in Hx as [Hx|Hx]; [discriminate Hx|]).
      inversion Hx.
  - (* the loop is over *)
    intros s _. split; [intros x Hx; inversion Hx | intros d Hd; inversion Hd].
  - (* a dependency that is in the array *)
    intros d rest s c s' t Hin Hrest IH Hret.
    destruct (IH Hret) as [IHt IHd]. split; [done|].
    intros d' Hd'. apply elem_of_cons in Hd' as [->|Hd']; [|by apply IHd].
    eapply grows_elem; [|exact Hin]. by eapply LoadDeps_grows.
  - (* a dependency that is loaded, then the rest *)
    intros d rest s s1 t1 c s2 t2 Hout Hload IH1 Hrest IH2 Hret.
    destruct (IH2 Hret) as [IHt IHd]. split.
    + intros x Hx. apply elem_of_app in Hx as [Hx|Hx].
      * eapply loadedThrough_mono; [by apply IH1| | |].
        -- by eapply LoadDeps_grows.
        -- by eapply (proj2 Load_framed_mutual).
        -- intros e He. apply elem_of_app. by left.
      * eapply loadedThrough_mono; [by apply IHt| | |].
        -- apply grows_refl.
        -- apply framed_refl.
        -- intros e He. apply elem_of_app. by right.
    + intros d' Hd'. apply elem_of_cons in Hd' as [->|Hd']; [|by apply IHd].
      eapply grows_elem; [by eapply LoadDeps_grows|].
      by eapply Load_claimed.
Qed.

End Return.

(** On return, nothing is left half-loaded.  When [loadPlugin] returns,
    every plugin the call claimed (the requested one, and each dependency
    it entered, at any depth) went through all the stages: its manifest
    was read, every dependency it declares is in the array, its server was
    constructed, its routes were registered and [PluginManager.instances]
    holds an instance under its manifest id. *)
Theorem claimed_plugins_are_loaded_through_on_return (env : Env)
    (config : FrameworkConfig) (plugin : IPlugin) (s : State)
    (t : list Event) (x : string) :
  fst (loadPlugin env config plugin s) = Return tt ->
  log (snd (loadPlugin env config plugin s)) = log s ++ t ->
  EvClaim x ∈ t ->
  loadedThrough env config (snd (loadPlugin env config plugin s)) t x.
Proof.
  intros Hret Hlog. apply loadPlugin_Load_log in Hlog.
  by apply (proj1 (Load_through_mutual env config) _ _ _ _ _ Hlog).
Qed.

Lemma claimed_plugins_are_loaded_through_on_return_witness :
  loadedThrough diamondABCD demoConfig
    (snd (loadPlugin diamondABCD demoConfig (plugin "D") initialState))
    [EvClaim "D"; EvManifest "D";
     EvClaim "B"; EvManifest "B";
     EvClaim "A"; EvManifest "A";
     EvPrepare "A"; EvInstantiate "A"; EvRoutes "A";
     EvPrepare "B"; EvInstantiate "B"; EvRoutes "B";
     EvClaim "C"; EvManifest "C";
     EvPrepare "C"; EvInstantiate "C"; EvRoutes "C";
     EvPrepare "D"; EvInstantiate "D"; EvRoutes "D"]
    "C".
Proof.
  apply (claimed_plugins_are_loaded_through_on_return diamondABCD demoConfig
           (plugin "D") initialState).
  - vm_compute. reflexivity.
  - vm_compute. reflexivity.
  - apply list_elem_of_In. simpl. tauto.
Defined.

(** What a returned call leaves for the requested plugin.  When
    [loadPlugin] returns, the manifest of the plugin was read, and
    [PluginManager.instances] holds, under the id the manifest gives (not
    the id the load was requested with), the very object its constructor
    returned for this configuration and manifest; the last thing the call
    did is the registration of its routes. *)
Theorem returned_load_installs_the_instance (env : Env)
    (config : FrameworkConfig) (plugin : IPlugin) (s s' : State) :
  loadPlugin env config plugin s = (Return tt, s') ->
  exists m i t0,
    manifests env !! manifestPath config (plugin_id plugin) = Some (inr m) /\
    constructed env config m = inr i /\
    instances s' !! manifest_id m = Some i /\
    log s' = log s ++ t0 ++ [EvRoutes (manifest_id m)].
Proof.
  intros Hrun. destruct (loadPlugin_Load env config plugin s) as (t & Ht & Hl).
  rewrite Hrun in Ht, Hl. cbn [fst snd] in Ht, Hl.
  inversion Ht as [| | | | |p0 s0 m deps s2 t1 i Hm Hd Hdeps Hc Hr]; subst.
  exists m, i.
  exists (EvClaim (plugin_id plugin) :: EvManifest (plugin_id plugin) :: t1 ++
          [EvPrepare (manifest_id m); EvInstantiate (manifest_id m)]).
  repeat split; try done.
  - simpl. by rewrite lookup_insert_eq.
  - rewrite Hl. f_equal. simpl. do 2 f_equal. by rewrite <- app_assoc.
Qed.

Lemma returned_load_installs_the_instance_witness :
  exists m i t0,
    manifests chainABC !! manifestPath demoConfig "B" = Some (inr m) /\
    constructed chainABC demoConfig m = inr i /\
    instances (snd (run chainABC "B" initialState)) !! manifest_id m = Some i /\
    log (snd (run chainABC "B" initialState)) =
      log initialState ++ t0 ++ [EvRoutes (manifest_id m)].
Proof.
  apply (returned_load_installs_the_instance chainABC demoConfig (plugin "B")
           initialState (snd (run chainABC "B" initialState))).
  vm_compute. reflexivity.
Defined.

(** ** What [loadDependencies] passes over *)

Section PassedOver.
Context (env : Env) (config : FrameworkConfig).

(** Entries whose id is in the array can be struck from the list. *)
Lemma loop_filter (keep : string -> bool) deps :
  forall s,
    (forall d, d ∈ deps -> keep (plugin_id d) = false ->
               plugin_id d ∈ _pluginsLoaded s) ->
    loadDependencies_loop (loadPlugin env config) deps s =
    loadDependencies_loop (loadPlugin env config)
      (List.filter (fun d => keep (plugin_id d)) deps) s.
Proof.
  induction deps as [|d rest IH]; intros s Hdrop; [done|].
  assert (forall s', (forall x, x ∈ _pluginsLoaded s -> x ∈ _pluginsLoaded s') ->
            loadDependencies_loop (loadPlugin env config) rest s' =
            loadDependencies_loop (loadPlugin env config)
              (List.filter (fun d => keep (plugin_id d)) rest) s') as IH'.
  { intros s' Hsub. apply IH. intros d' Hd' HK.
    apply Hsub, Hdrop; [by right|done]. }
  cbn [List.filter]. destruct (keep (plugin_id d)) eqn:HK.
  - destruct (decide (plugin_id d ∈ _pluginsLoaded s)) as [Hin|Hout].
    + rewrite !loop_cons_old by done. by apply IH'.
    + rewrite !loop_cons_new by done.
      destruct (loadPlugin_claims env config d s) as (t & _ & Hg).
      destruct (loadPlugin env config d s) as [[[]| e |] s1]; try done.
      apply IH'. intros x Hx. by eapply grows_elem.
  - rewrite loop_cons_old by (apply Hdrop; [left|done]). by apply IH'.
Qed.

End PassedOver.

(** Dependencies that are in the array when [loadDependencies] starts
    have no effect, wherever they stand in the list: the loop does the
    same, to the outcome and the whole state, as on the list of those
    that pass its test at the start. *)
Theorem loaded_dependencies_have_no_effect (env : Env)
    (config : FrameworkConfig) (deps : list IPlugin) (s : State) :
  loadDependencies_loop (loadPlugin env config) deps s =
  loadDependencies_loop (loadPlugin env config)
    (List.filter
       (fun d => (indexOf (_pluginsLoaded s) (plugin_id d) =? -1)%Z) deps) s.
Proof.
  apply (loop_filter env config
           (fun x => (indexOf (_pluginsLoaded s) x =? -1)%Z)).
  intros d _ Hd. rewrite indexOf_test in Hd.
  apply bool_decide_eq_false in Hd. by apply dec_stable.
Qed.

(** A dependency listed more than once is loaded at its first entry
    only: the loop does the same as on the list with the later entries
    for that id struck out. *)
Theorem repeated_dependency_is_loaded_once (env : Env)
    (config : FrameworkConfig) (d : IPlugin) (rest : list IPlugin)
    (s : State) :
  loadDependencies_loop (loadPlugin env config) (d :: rest) s =
  loadDependencies_loop (loadPlugin env config)
    (d :: List.filter
            (fun d' => negb (String.eqb (plugin_id d') (plugin_id d))) rest) s.
Proof.
  assert (forall s', plugin_id d ∈ _pluginsLoaded s' ->
            loadDependencies_loop (loadPlugin env config) rest s' =
            loadDependencies_loop (loadPlugin env config)
              (List.filter
                 (fun d' => negb (String.eqb (plugin_id d') (plugin_id d)))
                 rest) s') as Hrest.
  { intros s' Hin.
    apply (loop_filter env config
             (fun x => negb (String.eqb x (plugin_id d)))).
    intros d' _ Hd'. apply negb_false_iff, String.eqb_eq in Hd'.
    by rewrite Hd'. }
  destruct (decide (plugin_id d ∈ _pluginsLoaded s)) as [Hin|Hout].
  - rewrite !loop_cons_old by done. by apply Hrest.
  - rewrite !loop_cons_new by done.
    pose proof (loadPlugin_claimed env config d s) as Hc.
    destruct (loadPlugin env config d s) as [[[]| e |] s1]; try done.
    by apply Hrest.
Qed.

(** ** Every derivation is the run of [loadPlugin] *)

Section Soundness.
Context (env : Env) (config : FrameworkConfig).

Lemma loadPlugin_unreadable p s :
  (forall m, manifests env !! manifestPath config (plugin_id p)
             <> Some (inr m)) ->
  loadPlugin env config p s =
    (Throw (FrameworkError MANIFEST_NOT_FOUND
              (lookupError env config (plugin_id p))),
     push (plugin_id p) s).
Proof.
  intros Hm. rewrite loadPlugin_unfold, loadPlugin_body_eq.
  unfold getManifest, lookupError. cbv zeta.
  destruct (manifests env !! manifestPath config (plugin_id p))
    as [[err|m]|]; try done.
  by destruct (Hm m).
Qed.

Lemma loadPlugin_readable p m s :
  manifests env !! manifestPath config (plugin_id p) = Some (inr m) ->
  loadPlugin env config p s =
  match loadDependencies (loadPlugin env config) m
          (emit (EvManifest (plugin_id p)) (push (plugin_id p) s)) with
  | (Return _, s2) => ownStages env config m s2
  | (Throw e, s2) => (Throw e, s2)
  | (Diverge, s2) => (Diverge, s2)
  end.
Proof. destruct p as [pid]. apply (loadPlugin_found env config pid). Qed.

Lemma Load_sound_mutual :
  (forall p s c s' t, Load env config p s c s' t ->
     loadPlugin env config p s = (c, s')) /\
  (forall ds s c s' t, LoadDeps env config ds s c s' t ->
     loadDependencies_loop (loadPlugin env config) ds s = (c, s')).
Proof.
  apply Load_mutual.
  - intros p s Hm. by apply loadPlugin_unreadable.
  - intros p s m Hm Hd. rewrite (loadPlugin_readable p m s Hm).
    unfold loadDependencies. by rewrite Hd.
  - intros p s m deps e s2 t Hm Hd _ IH.
    rewrite (loadPlugin_readable p m s Hm).
    unfold loadDependencies. by rewrite Hd, IH.
  - intros p s m deps s2 t err Hm Hd _ IH Hc.
    rewrite (loadPlugin_readable p m s Hm).
    unfold loadDependencies. by rewrite Hd, IH, ownStages_eq, Hc.
  - intros p s m deps s2 t i err Hm Hd _ IH Hc Hr.
    rewrite (loadPlugin_readable p m s Hm).
    unfold loadDependencies. by rewrite Hd, IH, ownStages_eq, Hc, Hr.
  - intros p s m deps s2 t i Hm Hd _ IH Hc Hr.
    rewrite (loadPlugin_readable p m s Hm).
    unfold loadDependencies. by rewrite Hd, IH, ownStages_eq, Hc, Hr.
  - intros s. reflexivity.
  - intros d rest s c s' t Hin _ IH. by rewrite loop_cons_old.
  - intros d rest s e s1 t Hout _ IH. rewrite loop_cons_new by done.
    by rewrite IH.
  - intros d rest s s1 t1 c s2 t2 Hout _ IH1 _ IH2.
    rewrite loop_cons_new by done. by rewrite IH1.
Qed.

(** A derivation looks at the array only: from a state with the same
    array, the same rules apply. *)
Lemma Load_array_mutual :
  (forall p s c s' t, Load env config p s c s' t ->
     forall r, _pluginsLoaded r = _pluginsLoaded s ->
     exists r', Load env config p r c r' t) /\
  (forall ds s c s' t, LoadDeps env config ds s c s' t ->
     forall r, _pluginsLoaded r = _pluginsLoaded s ->
     exists r', LoadDeps env config ds r c r' t).
Proof.
  assert (forall p s r, _pluginsLoaded r = _pluginsLoaded s ->
            _pluginsLoaded (emit (EvManifest p) (push p r)) =
            _pluginsLoaded (emit (EvManifest p) (push p s))) as Hstart.
  { intros p s r Hr. simpl. by rewrite Hr. }
  apply Load_mutual.
  - intros p s Hm r Hr. eexists. by apply Load_unreadable.
  - intros p s m Hm Hd r Hr. eexists. by eapply Load_notIterable.
  - intros p s m deps e s2 t Hm Hd _ IH r Hr.
    destruct (IH _ (Hstart (plugin_id p) s r Hr)) as [r' Hr'].
    eexists. by eapply Load_dependency.
  - intros p s m deps s2 t err Hm Hd _ IH Hc r Hr.
    destruct (IH _ (Hstart (plugin_id p) s r Hr)) as [r' Hr'].
    eexists. by eapply Load_constructor.
  - intros p s m deps s2 t i err Hm Hd _ IH Hc Hrt r Hr.
    destruct (IH _ (Hstart (plugin_id p) s r Hr)) as [r' Hr'].
    eexists. by eapply Load_routes.
  - intros p s m deps s2 t i Hm Hd _ IH Hc Hrt r Hr.
    destruct (IH _ (Hstart (plugin_id p) s r Hr)) as [r' Hr'].
    eexists. by eapply Load_done.
  - intros s r Hr. eexists. constructor.
  - intros d rest s c s' t Hin _ IH r Hr. destruct (IH r Hr) as [r' H'].
    exists r'. apply Deps_skip; [by rewrite Hr | done].
  - intros d rest s e s1 t Hout _ IH r Hr. destruct (IH r Hr) as [r' H'].
    exists r'. apply Deps_throw; [by rewrite Hr | done].
  - intros d rest s s1 t1 c s2 t2 Hout H1 IH1 _ IH2 r Hr.
    destruct (IH1 r Hr) as [r1 H1'].
    destruct (IH2 r1) as [r2 H2'].
    { apply Load_grows in H1 as [_ ->]. apply Load_grows in H1' as [_ ->].
      by rewrite Hr. }
    exists r2. eapply Deps_next; [by rewrite Hr | exact H1' | exact H2'].
Qed.

End Soundness.

(** The array alone decides what a call does.  The loader tests
    [_pluginsLoaded] and nothing else: from two states with the same
    array, whatever [PluginManager.instances] holds, whatever was logged
    and whatever jobs are pending, [loadPlugin] settles the same way,
    leaves the same array and takes the same steps in the same order. *)
Theorem array_alone_decides (env : Env) (config : FrameworkConfig)
    (plugin : IPlugin) (s r : State) :
  _pluginsLoaded s = _pluginsLoaded r ->
  fst (loadPlugin env config plugin s) = fst (loadPlugin env config plugin r) /\
  _pluginsLoaded (snd (loadPlugin env config plugin s)) =
    _pluginsLoaded (snd (loadPlugin env config plugin r)) /\
  exists t,
    log (snd (loadPlugin env config plugin s)) = log s ++ t /\
    log (snd (loadPlugin env config plugin r)) = log r ++ t.
Proof.
  intros Hsr. destruct (loadPlugin_Load env config plugin s) as (t & Ht & Hl).
  destruct (proj1 (Load_array_mutual env config) _ _ _ _ _ Ht r (eq_sym Hsr))
    as [r' Hr'].
  rewrite (proj1 (Load_sound_mutual env config) _ _ _ _ _ Hr'). cbn [fst snd].
  apply Load_grows in Ht as [_ Hp]. apply Load_grows in Hr' as [Hl' Hp'].
  split; [done|]. split; [by rewrite Hp, Hp', Hsr|]. exists t. by split.
Qed.

Lemma array_alone_decides_witness :
  fst (loadPlugin cycleAB demoConfig (plugin "A") initialState) =
    fst (loadPlugin cycleAB demoConfig (plugin "A")
           (setInstance "B" (Instance "stale") (emit (EvRoutes "B") initialState))) /\
  _pluginsLoaded (snd (loadPlugin cycleAB demoConfig (plugin "A") initialState)) =
    _pluginsLoaded
      (snd (loadPlugin cycleAB demoConfig (plugin "A")
              (setInstance "B" (Instance "stale")
                 (emit (EvRoutes "B") initialState)))) /\
  exists t,
    log (snd (loadPlugin cycleAB demoConfig (plugin "A") initialState)) =
      log initialState ++ t /\
    log (snd (loadPlugin cycleAB demoConfig (plugin "A")
                (setInstance "B" (Instance "stale")
                   (emit (EvRoutes "B") initialState)))) =
      log (setInstance "B" (Instance "stale") (emit (EvRoutes "B") initialState))
      ++ t.
Proof.
  apply (array_alone_decides cycleAB demoConfig (plugin "A") initialState
           (setInstance "B" (Instance "stale") (emit (EvRoutes "B") initialState))).
  reflexivity.
Defined.

(** ** How many plugins a call claims *)

Section Bound.
Context (env : Env) (config : FrameworkConfig).

Lemma readable_bound (l : list string) :
  NoDup l -> Forall (fun x => readable env config x = true) l ->
  length l <= size (manifests env).
Proof.
  intros Hn Hall.
  rewrite <- (length_fmap (manifestPath config) l).
  rewrite <- (size_list_to_set (C := gset string)).
  2:{ apply NoDup_fmap_2_strong; [|done].
      intros x y _ _. apply manifestPath_inj. }
  rewrite <- (size_dom (D := gset string)). apply subseteq_size.
  intros y Hy.
  apply elem_of_list_to_set, list_elem_of_fmap in Hy as (x & -> & Hx).
  apply elem_of_dom.
  destruct (readable_manifest env config x
              (proj1 (Forall_forall _ _) Hall x Hx)) as [m Hm].
  by eexists.
Qed.

Lemma readable_found p m :
  manifests env !! manifestPath config p = Some (inr m) ->
  readable env config p = true.
Proof. intros Hm. unfold readable. by rewrite Hm. Qed.

Lemma claimsReadable_load p m c t :
  manifests env !! manifestPath config p = Some (inr m) ->
  forall u, claimsOf u = [] ->
  claimsReadable env config c t ->
  claimsReadable env config c (EvClaim p :: EvManifest p :: t ++ u).
Proof.
  intros Hm u Hu (l & rest & Ht & Hl & Hlen & Hret).
  exists (p :: l), rest. repeat split; try done.
  - cbn [claimsOf flat_map app]. fold (claimsOf (t ++ u)).
    by rewrite claimsOf_app, Hu, app_nil_r, Ht.
  - constructor; [by eapply readable_found | done].
Qed.

Lemma claimsReadable_return t u c :
  claimsReadable env config (Return tt) t -> claimsReadable env config c u ->
  claimsReadable env config c (t ++ u).
Proof.
  intros (l1 & rest1 & Ht & Hl1 & _ & Hret1) (l2 & rest2 & Hu & Hl2 & Hlen & Hret).
  rewrite (Hret1 eq_refl), app_nil_r in Ht.
  exists (l1 ++ l2), rest2. repeat split; try done.
  - by rewrite claimsOf_app, Ht, Hu, app_assoc.
  - by apply Forall_app.
Qed.

Lemma claimsReadable_throw c e t :
  claimsReadable env config c t -> claimsReadable env config (Throw e) t.
Proof.
  intros (l & rest & Ht & Hl & Hlen & _). exists l, rest.
  repeat split; try done.
Qed.

Lemma Load_claimsReadable_mutual :
  (forall p s c s' t, Load env config p s c s' t ->
     claimsReadable env config c t) /\
  (forall ds s c s' t, LoadDeps env config ds s c s' t ->
     claimsReadable env config c t).
Proof.
  apply Load_mutual.
  - intros p s _. exists [], [plugin_id p].
    split; [done|]. split; [constructor|]. split; [simpl; lia | done].
  - intros p s m Hm _. exists [plugin_id p], [].
    split; [done|]. split; [|split; [simpl; lia | done]].
    constructor; [by eapply readable_found | constructor].
  - intros p s m deps e s2 t Hm _ _ IH.
    rewrite <- (app_nil_r t). by eapply claimsReadable_load.
  - intros p s m deps s2 t err Hm _ _ IH _.
    apply (claimsReadable_load _ m); [done|done|].
    by eapply claimsReadable_throw.
  - intros p s m deps s2 t i err Hm _ _ IH _ _.
    apply (claimsReadable_load _ m); [done|done|].
    by eapply claimsReadable_throw.
  - intros p s m deps s2 t i Hm _ _ IH _ _.
    by apply (claimsReadable_load _ m).
  - intros s. exists [], [].
    split; [done|]. split; [constructor|]. split; [simpl; lia | done].
  - intros d rest s c s' t _ _ IH. exact IH.
  - intros d rest s e s1 t _ _ IH. exact IH.
  - intros d rest s s1 t1 c s2 t2 _ _ IH1 _ IH2.
    by apply claimsReadable_return.
Qed.

End Bound.

(** A call claims no id twice, and no more ids than there are manifest
    modules, but for one.  Whatever the directory, the state and the
    outcome, the ids [loadPlugin] pushes during one call are pairwise
    different (even when the array held the requested id, or duplicates,
    before), and there are at most as many as manifest modules in the
    directory plus one: the one more is an id without a readable
    manifest, at which the call ends.  When the call returns there are at
    most as many as manifest modules. *)
Theorem call_claims_each_plugin_once (env : Env) (config : FrameworkConfig)
    (plugin : IPlugin) (s : State) :
  exists t,
    log (snd (loadPlugin env config plugin s)) = log s ++ t /\
    NoDup (claimsOf t) /\
    length (claimsOf t) <= S (size (manifests env)) /\
    (fst (loadPlugin env config plugin s) = Return tt ->
     length (claimsOf t) <= size (manifests env)).
Proof.
  destruct (loadPlugin_Load env config plugin s) as (t & Ht & Hl).
  exists t. split; [done|].
  assert (NoDup (claimsOf t)) as Hnd.
  { destruct (loadPlugin_claims env config plugin s)
      as (t' & (_ & Hn & Hfresh) & [Hl' _]).
    rewrite Hl in Hl'. apply app_inv_head in Hl' as ->.
    cbn [claimsOf flat_map app]. fold (claimsOf t').
    apply NoDup_cons. split; [|done].
    intros Hin. apply (Hfresh _ Hin). simpl. apply elem_of_app. right. left. }
  split; [done|].
  destruct (proj1 (Load_claimsReadable_mutual env config) _ _ _ _ _ Ht)
    as (l & rest & Hc & Hall & Hlen & Hret).
  rewrite Hc in Hnd |- *. apply NoDup_app in Hnd as (Hl1 & _ & _).
  pose proof (readable_bound env config l Hl1 Hall) as Hb.
  rewrite length_app. split; [lia|].
  intros Hr. rewrite (Hret Hr). simpl. lia.
Qed.

(** ** Loads that enter no dependency *)

(** A plugin whose dependencies are all in the array, or are the plugin
    itself, is loaded without any nested call: the call is the claim, the
    manifest and the three stages of the plugin itself.  So a plugin may
    name itself as a dependency, and asking again for a loaded plugin
    runs its own stages again and none of its dependencies'. *)
Theorem load_without_nested_calls (env : Env) (config : FrameworkConfig)
    (plugin : IPlugin) (m : Manifest) (deps : list IPlugin) (s : State) :
  manifests env !! manifestPath config (plugin_id plugin) = Some (inr m) ->
  dependencies (server m) = Some deps ->
  (forall d, d ∈ deps ->
     plugin_id d = plugin_id plugin \/ plugin_id d ∈ _pluginsLoaded s) ->
  loadPlugin env config plugin s =
    ownStages env config m
      (emit (EvManifest (plugin_id plugin)) (push (plugin_id plugin) s)).
Proof.
  intros Hm Hd Hall. rewrite (loadPlugin_readable env config plugin m s Hm).
  unfold loadDependencies. rewrite Hd, loop_skips; [done|].
  intros d Hin. simpl. apply elem_of_app.
  destruct (Hall d Hin) as [->|Hold]; [right; left | by left].
Qed.

Lemma load_without_nested_calls_witness :
  loadPlugin selfDependent demoConfig (plugin "A") initialState =
    ownStages selfDependent demoConfig (mkManifest "A" ["A"])
      (emit (EvManifest "A") (push "A" initialState)).
Proof.
  apply (load_without_nested_calls selfDependent demoConfig (plugin "A")
           (mkManifest "A" ["A"]) [plugin "A"] initialState).
  - reflexivity.
  - reflexivity.
  - intros d Hd. apply list_elem_of_singleton in Hd as ->. by left.
Defined.

(** A plugin that was asked for is never loaded as a dependency again,
    whatever came of the call: after [loadPlugin(d)], returned or
    rejected, [loadDependencies] passes over [d] in every list. *)
Theorem requested_plugin_is_never_retried (env : Env)
    (config : FrameworkConfig) (d : IPlugin) (rest : list IPlugin)
    (s : State) :
  loadDependencies_loop (loadPlugin env config) (d :: rest)
    (snd (loadPlugin env config d s)) =
  loadDependencies_loop (loadPlugin env config) rest
    (snd (loadPlugin env config d s)).
Proof. apply loop_cons_old, loadPlugin_claimed. Qed.

(** ** The configuration the getter hands out *)

Lemma setField_read fuel (H : Heap) k b (o : JsObject) : forall fs,
  mapM (readField fuel H) o = Some fs ->
  exists fs',
    mapM (readField fuel H) (setField k (VStr b) o) = Some fs' /\
    assoc k fs' = Some (JsonStr b).
Proof.
  induction o as [|[k' v'] r IH]; intros fs Hfs.
  - exists [(k, JsonStr b)]. split; [by destruct fuel|].
    simpl. by rewrite String.eqb_refl.
  - cbn [mapM] in Hfs.
    destruct (readField fuel H (k', v')) as [[k1 j1]|] eqn:E1; [|done].
    destruct (mapM (readField fuel H) r) as [fr|] eqn:E2; [|done].
    cbn [setField]. destruct (String.eqb k k') eqn:Ek.
    + exists ((k, JsonStr b) :: fr). split.
      * cbn [mapM]. rewrite E2. by destruct fuel.
      * simpl. by rewrite String.eqb_refl.
    + destruct (IH fr eq_refl) as (fs' & Hread & Hassoc).
      exists ((k1, j1) :: fs'). split.
      * cbn [mapM]. by rewrite E1, Hread.
      * assert (k1 = k') as ->.
        { unfold readField in E1. destruct (readDeep fuel H v'); congruence. }
        simpl. by rewrite Ek.
Qed.

(** The getter hands out the loader's own object, not a copy.  [config]
    returns [this._config]; a write to [pluginBasePath] through what it
    returns is read by the loader from then on: every later [loadPlugin]
    looks for the manifest, server, routes and schema files under the new
    base path. *)
Theorem config_getter_is_not_a_copy (h : Heap) (config : JsVal) (h1 : Heap)
    (loader : PluginLoader) (l : nat) (base : string) :
  construct h config = Some (h1, loader) ->
  get_config loader = VRef l ->
  exists j,
    getConfig (mutate h1 (SetField l "pluginBasePath" (VStr base))) loader
      = Some j /\
    pluginBasePath j = base /\
    forall env plugin s,
      PluginLoader_loadPlugin env
        (mutate h1 (SetField l "pluginBasePath" (VStr base))) loader plugin s
      = Some (loadPlugin env j plugin s).
Proof.
  unfold construct, cloneDeep, get_config. intros Hc Hl.
  destruct (readDeep (S (length h)) h config) as [j0|]; [|done].
  destruct (alloc j0 h) as [h' c] eqn:Ha. injection Hc as <- <-.
  cbn [_config] in Hl. subst c.
  destruct j0 as [| | | | |fs]; try (simpl in Ha; congruence).
  rewrite alloc_obj in Ha.
  destruct (alloc_fields fs h) as [h0 o] eqn:Hf. injection Ha as <- <-.
  assert (Forall (fun kj => alloc_ok (snd kj)) fs) as Hok.
  { apply Forall_forall. intros kj _. apply alloc_spec. }
  destruct (alloc_fields_ok fs Hok _ _ _ Hf) as [(news & -> & Hn) Hread].
  assert (mutate ((h ++ news) ++ [o])
            (SetField (length (h ++ news)) "pluginBasePath" (VStr base)) =
          (h ++ news) ++ [setField "pluginBasePath" (VStr base) o]) as ->.
  { cbn [mutate]. rewrite lookup_app_r by lia. rewrite Nat.sub_diag.
    cbn [lookup list_lookup]. rewrite insert_app_r_alt by lia.
    by rewrite Nat.sub_diag. }
  set (H := (h ++ news) ++ [setField "pluginBasePath" (VStr base) o]).
  assert (mapM (readField (length H) H) o = Some fs) as Ho.
  { apply Hread.
    - intros l' Hl'. subst H. symmetry. apply lookup_app_l. lia.
    - subst H. rewrite !length_app. simpl. lia. }
  destruct (setField_read (length H) H "pluginBasePath" base o fs Ho)
    as (fs' & Hfs' & Hassoc).
  assert (getConfig H {| _config := VRef (length (h ++ news)) |} =
          Some (JsonObj fs')) as Hget.
  { unfold getConfig. cbn [_config]. rewrite readDeep_ref.
    subst H. rewrite lookup_app_r by lia. rewrite Nat.sub_diag.
    cbn [lookup list_lookup]. by rewrite Hfs'. }
  exists (JsonObj fs'). split; [done|]. split.
  - unfold pluginBasePath, js_get. by rewrite Hassoc.
  - intros env plugin s. unfold PluginLoader_loadPlugin. by rewrite Hget.
Qed.

Lemma config_getter_is_not_a_copy_witness :
  exists j,
    getConfig (mutate loaderHeap (SetField 3 "pluginBasePath" (VStr "/elsewhere/")))
      {| _config := VRef 3 |} = Some j /\
    pluginBasePath j = "/elsewhere/" /\
    forall env plugin s,
      PluginLoader_loadPlugin env
        (mutate loaderHeap (SetField 3 "pluginBasePath" (VStr "/elsewhere/")))
        {| _config := VRef 3 |} plugin s
      = Some (loadPlugin env j plugin s).
Proof.
  apply (config_getter_is_not_a_copy callerHeap callerConfig loaderHeap
           {| _config := VRef 3 |} 3 "/elsewhere/").
  - reflexivity.
  - reflexivity.
Defined.

(** ** What a load depends on *)

Section Locality.
Context (env env' : Env) (config : FrameworkConfig).

Lemma sameModulesAt_lookupError x :
  sameModulesAt env env' config x ->
  lookupError env config x = lookupError env' config x.
Proof. intros [Hm _]. unfold lookupError. by rewrite Hm. Qed.

Lemma sameModulesAt_stages p m s :
  sameModulesAt env env' config p ->
  manifests env !! manifestPath config p = Some (inr m) ->
  manifests env' !! manifestPath config p = Some (inr m) /\
  constructed env config m = constructed env' config m /\
  routed env config m = routed env' config m /\
  prepared env config m s = prepared env' config m s /\
  (forall i, instantiated env config m i s = instantiated env' config m i s) /\
  (forall i, finished env config m i s = finished env' config m i s).
Proof.
  intros [Hsame Hm'] Hm. destruct (Hm' m Hm) as (Hc & Hr & Hj).
  unfold finished, instantiated, prepared. rewrite Hj.
  repeat split; try done. by rewrite <- Hsame.
Qed.

Lemma Load_local_mutual :
  (forall p s c s' t, Load env config p s c s' t ->
     (forall x, EvClaim x ∈ t -> sameModulesAt env env' config x) ->
     Load env' config p s c s' t) /\
  (forall ds s c s' t, LoadDeps env config ds s c s' t ->
     (forall x, EvClaim x ∈ t -> sameModulesAt env env' config x) ->
     LoadDeps env' config ds s c s' t).
Proof.
  apply Load_mutual.
  - intros p s Hm Hsame.
    assert (sameModulesAt env env' config (plugin_id p)) as Hp
      by (apply Hsame; left).
    rewrite (sameModulesAt_lookupError _ Hp). apply Load_unreadable.
    intros m. destruct Hp as [<- _]. apply Hm.
  - intros p s m Hm Hd Hsame.
    assert (sameModulesAt env env' config (plugin_id p)) as Hp
      by (apply Hsame; left).
    destruct (sameModulesAt_stages _ m s Hp Hm) as (Hm' & _).
    by eapply Load_notIterable.
  - intros p s m deps e s2 t Hm Hd _ IH Hsame.
    assert (sameModulesAt env env' config (plugin_id p)) as Hp
      by (apply Hsame; left).
    destruct (sameModulesAt_stages _ m s Hp Hm) as (Hm' & _).
    eapply Load_dependency; [done|done|]. apply IH.
    intros x Hx. apply Hsame. right. by right.
  - intros p s m deps s2 t err Hm Hd _ IH Hc Hsame.
    assert (sameModulesAt env env' config (plugin_id p)) as Hp
      by (apply Hsame; left).
    destruct (sameModulesAt_stages _ m s2 Hp Hm) as (Hm' & Hc' & _ & -> & _).
    eapply Load_constructor; [done|done| |by rewrite <- Hc'].
    apply IH. intros x Hx. apply Hsame. right. right.
    apply elem_of_app. by left.
  - intros p s m deps s2 t i err Hm Hd _ IH Hc Hr Hsame.
    assert (sameModulesAt env env' config (plugin_id p)) as Hp
      by (apply Hsame; left).
    destruct (sameModulesAt_stages _ m s2 Hp Hm)
      as (Hm' & Hc' & Hr' & _ & -> & _).
    eapply Load_routes;
      [done|done| |by rewrite <- Hc'|by rewrite <- Hr'].
    apply IH. intros x Hx. apply Hsame. right. right.
    apply elem_of_app. by left.
  - intros p s m deps s2 t i Hm Hd _ IH Hc Hr Hsame.
    assert (sameModulesAt env env' config (plugin_id p)) as Hp
      by (apply Hsame; left).
    destruct (sameModulesAt_stages _ m s2 Hp Hm)
      as (Hm' & Hc' & Hr' & _ & _ & ->).
    eapply Load_done;
      [done|done| |by rewrite <- Hc'|by rewrite <- Hr'].
    apply IH. intros x Hx. apply Hsame. right. right.
    apply elem_of_app. by left.
  - intros s _. constructor.
  - intros d rest s c s' t Hin _ IH Hsame. apply Deps_skip; [done|].
    by apply IH.
  - intros d rest s e s1 t Hout _ IH Hsame. apply Deps_throw; [done|].
    by apply IH.
  - intros d rest s s1 t1 c s2 t2 Hout _ IH1 _ IH2 Hsame.
    eapply Deps_next; [done| |].
    + apply IH1. intros x Hx. apply Hsame, elem_of_app. by left.
    + apply IH2. intros x Hx. apply Hsame, elem_of_app. by right.
Qed.

End Locality.

(** A load depends on the plugins it claims, and on nothing else in the
    directory.  When a second directory holds the same manifest, server,
    router and schema files for every plugin that [loadPlugin] claimed
    during a call, the call gives the same outcome and the same state
    there: plugins the call does not reach, their modules and their
    failures, have no part in it. *)
Theorem load_depends_on_claimed_plugins_only (env env' : Env)
    (config : FrameworkConfig) (plugin : IPlugin) (s : State)
    (t : list Event) :
  log (snd (loadPlugin env config plugin s)) = log s ++ t ->
  (forall x, EvClaim x ∈ t -> sameModulesAt env env' config x) ->
  loadPlugin env' config plugin s = loadPlugin env config plugin s.
Proof.
  intros Hlog Hsame. apply loadPlugin_Load_log in Hlog.
  apply (proj1 (Load_local_mutual env env' config) _ _ _ _ _) in Hlog;
    [|done].
  rewrite (proj1 (Load_sound_mutual env' config) _ _ _ _ _ Hlog).
  by destruct (loadPlugin env config plugin s).
Qed.

Lemma load_depends_on_claimed_plugins_only_witness :
  loadPlugin diamondABCD demoConfig (plugin "B") initialState =
  loadPlugin chainABC demoConfig (plugin "B") initialState.
Proof.
  apply (load_depends_on_claimed_plugins_only chainABC diamondABCD demoConfig
           (plugin "B") initialState
           [EvClaim "B"; EvManifest "B";
            EvClaim "A"; EvManifest "A";
            EvPrepare "A"; EvInstantiate "A"; EvRoutes "A";
            EvPrepare "B"; EvInstantiate "B"; EvRoutes "B"]).
  - vm_compute. reflexivity.
  - intros x Hx. apply list_elem_of_In in Hx. simpl in Hx.
    assert (x = "A" \/ x = "B") as [-> | ->].
    { repeat (destruct Hx as [Hx|Hx]; [try discriminate Hx; injection Hx; auto|]).
      destruct Hx. }
    + split; [vm_compute; reflexivity|].
      intros m Hm. vm_compute in Hm. injection Hm as <-.
      repeat split; vm_compute; reflexivity.
    + split; [vm_compute; reflexivity|].
      intros m Hm. vm_compute in Hm. injection Hm as <-.
      repeat split; vm_compute; reflexivity.
Defined.
